(* ===== verification/_CoqProject ===== *)
-Q . S2P
Prelude.v
Numeral.v
TypedValue.v
Xml.v
Coordinate.v
Address.v
DefinedName.v
Smooth.v
Drawing.v
SplitSpec.v
Binder.v
