(* ===== verification/Prelude.v ===== *)
(** * A verification development for umya-spreadsheet's defined names,
      cell references and element readers

    The repository (src/) holds three files of the spreadsheet library:
    - src/src/structs/defined_name.rs: [DefinedName], a named range that
      owns a list of [Address] values or a literal string. Its comma
      splitter [split_str] cuts the text of a [definedName] element into
      tokens; [set_address] classifies each token with [is_address] and
      stores it with [add_address] (which undoes doubled quotes and parses
      it with [Address::set_address]) or [set_string_value]; [get_address]
      prints it back; [is_remove] and the [AdjustmentCoordinate] methods
      follow row/column insertions and removals; [set_attributes] is the
      XML read loop of the element and [write_to] its writer.
    - src/src/structs/drawing/charts/smooth.rs: [Smooth], the chart element
      [c:smooth] with one boolean attribute.
    - src/src/reader/xlsx/drawing.rs: the reader of a drawing part, an event
      loop that hands each [xdr:wsDr] element to the worksheet drawing.
    They call code that is not under src/ (the typed values, the [Address]
    and [Range] structs and their helpers, the XML driver macros); that
    code is modelled from the spec (spec.md §3-§7) and marked so in
    PROJECT.json.

    ** Files, in dependency order
    - [Prelude] (this file): the [result] type standing for Rust's
      [Result] and for the panics of the read loops, with its bind
      notation in [umya_scope]; characters and strings ([chars_of],
      [push], [join]); the hint databases [umya] and [umya_rw]; Ltac
      [invc], [case_chr], [chars_simpl].
    - [Numeral]: Horner evaluation of digit strings and decimal printing,
      with their round trip; shared by rows, columns and [u32] values.
    - [TypedValue]: [Value T] for [StringValue]/[UInt32Value]/
      [BooleanValue], behind the typeclass [ValueKind] (default, printer,
      parser, range) and its laws [ValueKindLaws]; instances for [string],
      [bool] and [u32] (as [N] below 2^32, parsed as [u32::from_str]).
    - [Xml]: quick_xml's events, a reader as the list of what successive
      [read_event] calls return (past the end: [Eof]), [get_attribute],
      the writer helpers, text escaping and unescaping.
    - [Coordinate]: column letters (bijective base 26), corners
      [[$]COL[$]ROW], the per-coordinate insert/remove adjustment.
    - [Address]: [Range], [Address], the printer [get_address_ptn2], the
      recognizer [is_address], the parser [address_set_address]
      ([Address::set_address]), [replace_dq] (the [replace("''", "'")] of
      [add_address]), range adjustment and [address_is_remove].
    - [DefinedName], Module [DefinedName]: the source's struct and every
      method of defined_name.rs, one definition each; [split_str] is a
      fold of [split_step] (one iteration of the Rust loop) over the
      characters, with the three flags of the code ([is_pass_b] as [Z]).
    - [Smooth], Module [Smooth]: smooth.rs.
    - [SplitSpec], Module [SplitSpec]: a reference splitter [split_ref]
      (Equations, well-founded recursion on the length) that cuts one
      token at a time, and the proof that [split_str] computes it.
    - [Binder], Module [Binder]: the spec's generic Element Binder and
      Writer (§4.4, §4.5) as an abstract specification: schemas, a fuelled
      binder that skips unknown subtrees by depth, a schema-ordered
      writer; the schemas of [c:smooth] and [definedName], and
      [DefinedName::write_to] set against the protocol's writer and
      binder.
    - [Drawing], Module [Drawing]: drawing.rs, the archive lookup
      ([read_part]) and the loop, over any
      worksheet drawing reader given by the class
      [WorksheetDrawingReader] whose law ([WorksheetDrawingReaderLaws])
      says it never hands back more events than it received.

    ** What is proved
    - Round trips of the reference syntax: column letters (both
      directions), decimal rows, the printed address recognized by
      [is_address] and parsed back by [address_set_address] after the
      quote un-doubling ([set_address_ptn2]); [split_str] inverts the
      comma join of printed addresses whose sheet names have balanced
      parentheses and an even number of double quotes ([split_str_join]);
      an owner without literal reads its own [get_address] back
      ([set_get_address_roundtrip]); the events [write_to] emits read back
      through [set_attributes] ([write_read_roundtrip]), text escaping
      included; the same for [c:smooth]. Whatever the owner, the events
      [write_to] emits are accepted by the spec's generic binder, which
      binds exactly the attributes and address written
      ([defined_name_output_binds]).
    - The behaviour of [set_address] on every kind of text: tokens that
      are all addresses are appended after the existing ones
      ([set_address_all_addresses]); otherwise the last literal wins and
      only the addresses after it are kept ([set_address_last_literal]).
      [set_sheet_name] moves every address to the new sheet and keeps
      every range, and [get_sheet_name_crate] then reports the new sheet
      ([set_sheet_name_get]).
    - Adjustment: insertion followed by removal of the same span is the
      identity on ranges and owners; removal followed by insertion is the
      identity on owners none of whose corners lies in the removed span
      ([adjustment_insert_remove]); insertion keeps the addresses of an
      owner well formed and sorted and never makes [is_remove] drop one;
      [is_remove] keeps exactly the surviving addresses, never drops an
      address of another sheet and reports emptiness exactly when no
      literal and no address is left.
    - Reading: a truncated [definedName] element is an [UnexpectedEof]
      error; the loop's fatal conditions (read error, text that does not
      unescape) are errors whatever follows ([read_loop_errors]); a
      [c:smooth] without
      [val] is an error, and [val] reads as [true] exactly for "1" and
      "true".
    - Equivalence: [split_str] equals the reference splitter
      ([split_str_ref]).
    - Liveness: a [definedName] fragment with its closing tag is always
      read to it, the last text applied ([read_loop_completes]).
    - Against the spec's generic protocol: [DefinedName::write_to] is
      the protocol's writer when the name is set
      ([defined_name_write_refines]). Examples show where the code's
      readers and writers part from it (last text wins, depth not
      tracked, stray end tags ignored, unset attributes written).
    - Bounds: [split_str]'s parenthesis counter, an [i32] in the code,
      stays in range on every text shorter than 2^31 characters
      ([split_counter_i32]); over any sequence of insertions the
      columns of an owner's addresses grow by at most the total column
      offset and the rows by at most the total row offset
      ([adjustment_insert_bound]), so from the sheet's limits (16384
      columns, 1048576 rows) the [u32] additions of the adjustment are
      exact while the bound plus the offsets stays within 2^32.
    - The drawing part: a part missing from the archive is a zip error
      ([read_part_missing]); otherwise reading it succeeds exactly when
      the loop's specification does ([read_part_runs]).
    - The drawing loop: a big-step relation [Drawing.runs] specifies it
      event by event and [read] computes exactly the results it allows
      ([read_refines]); run with one iteration per event plus one it
      always finishes, and more iterations change nothing.
    - Examples record behaviours the spec does not expect (listed as
      findings in PROJECT.json): [split_str] drops top-level double
      quotes, splits array constants, and counts parentheses inside
      quoted sheet names; [set_address] can leave both a literal and
      addresses; the read loop keeps only the last text event; the
      adjustment moves addresses of every sheet; unset [name] and [val]
      attributes are still written; a removal can invert a range.

    ** Bounds, fuel and what is not modelled
    - Loops over finite inputs are structural recursions (the character
      list, the event list). Printers of numerals take fuel [n] or [S n]
      for the value [n], enough because each step divides by the base.
      The drawing loop takes [S (length r)] iterations, enough because
      each iteration consumes an event and the nested reader never grows
      the input (proved). The spec's binder takes [S (length r)]
      iterations for the same reason; nested elements and skipped
      subtrees consume events too ([bind_total]).
    - [split_ref] is defined by well-founded recursion with Equations,
      whose unfolding lemma relies on [functional_extensionality_dep]
      (Stdlib's axiom); nothing else in the development assumes one.
    - Coordinates are [nat], without the [u32] wrap-around: the bound
      [adjustment_insert_bound] shows how far insertions can take them,
      and removal subtracts [offset] only from a coordinate at least
      [root + offset], so it never goes below zero.
      Rust [char]s are 8-bit [ascii].
    - The archive of drawing.rs is a [gmap] from part names to the
      events of each part; [normalize_path] (not under src/) is a
      parameter of its theorems.
    - Not modelled: the bytes of an archive part and their tokenization
      (quick_xml), [read_to_end]'s I/O errors, the
      worksheet drawing reader itself (an interface here), character
      references [&#..;] of unescape, the trimming of text by the
      reader, and children elements of the generic binder in the code
      (neither element under src/ has children).
*)

From Stdlib Require Import String Ascii List Lia Arith.
From stdpp Require Import base decidable list.
Import ListNotations.

(** ** Notation scope of the development *)

Declare Scope umya_scope.
Delimit Scope umya_scope with umya.

(** ** Results: Rust's [Result] and the panics of the read loops

    The Rust code returns [Result] from the part readers and panics inside
    the element read loops; both are modelled as the [Err] branch of
    [result], so that a fatal read condition is a value. *)

Inductive result (E A : Type) : Type :=
  | Ok (a : A)
  | Err (e : E).
Arguments Ok {E A} a.
Arguments Err {E A} e.

Definition bind_result {E A B} (c : result E A) (k : A -> result E B) : result E B :=
  match c with
  | Ok a => k a
  | Err e => Err e
  end.

Notation "x <- c ;; k" := (bind_result c (fun x => k))
  (at level 100, c at next level, right associativity) : umya_scope.

(** ** Characters and strings

    A Rust [String] is a [string] (of 8-bit [ascii] characters: the
    non-ASCII code points of Rust's [char] are not modelled). Loops over
    [value.chars()] are loops over [chars_of value]. *)

#[export] Instance ascii_eq_dec : EqDecision ascii := ascii_dec.
#[export] Instance string_eq_dec : EqDecision string := string_dec.

Definition chars_of (s : string) : list ascii := list_ascii_of_string s.
Definition str_of (l : list ascii) : string := string_of_list_ascii l.

(** [String::push]: append one character at the end. *)
Definition push (s : string) (c : ascii) : string := (s ++ String c EmptyString)%string.

(** [[String]::join(sep)]. *)
Fixpoint join (sep : string) (l : list string) : string :=
  match l with
  | [] => EmptyString
  | [x] => x
  | x :: xs => (x ++ sep ++ join sep xs)%string
  end.

Lemma bind_result_Ok {E A B} (c : result E A) (k : A -> result E B) (v : B) :
  bind_result c k = Ok v -> exists a, c = Ok a /\ k a = Ok v.
Proof. destruct c; simpl; [eauto | discriminate]. Qed.

Lemma chars_of_append (s t : string) :
  chars_of (s ++ t)%string = chars_of s ++ chars_of t.
Proof. induction s as [|c s IH]; simpl; [done | by rewrite IH]. Qed.

Lemma chars_of_push (s : string) (c : ascii) : chars_of (push s c) = chars_of s ++ [c].
Proof. unfold push. by rewrite chars_of_append. Qed.

Lemma chars_of_str_of (l : list ascii) : chars_of (str_of l) = l.
Proof. apply list_ascii_of_string_of_list_ascii. Qed.

Lemma str_of_chars_of (s : string) : str_of (chars_of s) = s.
Proof. apply string_of_list_ascii_of_string. Qed.

Lemma chars_of_inj (s t : string) : chars_of s = chars_of t -> s = t.
Proof. intros H. by rewrite <- (str_of_chars_of s), <- (str_of_chars_of t), H. Qed.

Lemma str_of_app (l1 l2 : list ascii) : str_of (l1 ++ l2) = (str_of l1 ++ str_of l2)%string.
Proof. apply chars_of_inj. by rewrite chars_of_append, !chars_of_str_of. Qed.

Lemma chars_of_join_cons (sep x y : string) (l : list string) :
  chars_of (join sep (x :: y :: l)) = chars_of x ++ chars_of sep ++ chars_of (join sep (y :: l)).
Proof. simpl. by rewrite !chars_of_append. Qed.

(** ** Automation *)

Create HintDb umya discriminated.
Create Rewrite HintDb umya_rw.
#[export] Hint Rewrite chars_of_append chars_of_push chars_of_str_of str_of_chars_of : umya_rw.

(** [invc H]: invert, substitute, clear. *)
Ltac invc H := inversion H; subst; clear H.

(** Case analysis on the first character comparison of the goal. *)
Ltac case_chr :=
  match goal with
  | |- context [Ascii.eqb ?a ?b] => destruct (Ascii.eqb_spec a b); subst
  end.

(** Unfold the characters of a concrete string, then compute. *)
Ltac chars_simpl := autorewrite with umya_rw in *; simpl in *.
