(* ===== verification/Numeral.v ===== *)
(** Positional numerals over characters, shared by the row numbers of
    cell references, the column letters and the [u32] attribute values:
    evaluation ([horner]), decimal printing ([decimal_digits]) and the
    round trip between them. *)

From Stdlib Require Import String Ascii List Lia Arith.
From stdpp Require Import base decidable list.
From S2P Require Import Prelude.
Import ListNotations.

(** Value of a numeral read left to right, one digit at a time: the loop
    [result = result * base + value(c)] that every numeral parser of the
    code base runs. *)
Definition horner (base : nat) (val : ascii -> nat) (l : list ascii) : nat :=
  fold_left (fun acc c => acc * base + val c) l 0.

(** ** Decimal digits *)

Definition is_digit (c : ascii) : bool :=
  (48 <=? nat_of_ascii c) && (nat_of_ascii c <=? 57).

Definition digit_value (c : ascii) : nat := nat_of_ascii c - 48.

Definition digit_char (d : nat) : ascii := ascii_of_nat (48 + d).

(** Decimal printing of [n], most significant digit first, in front of
    [acc]; [fuel] bounds the number of divisions ([S n] is enough). *)
Fixpoint decimal_digits (fuel n : nat) (acc : list ascii) : list ascii :=
  match fuel with
  | 0 => acc
  | S f =>
      let acc' := digit_char (n mod 10) :: acc in
      if n <? 10 then acc' else decimal_digits f (n / 10) acc'
  end.

(** [n.to_string()] for an unsigned integer. *)
Definition nat_to_string (n : nat) : string := str_of (decimal_digits (S n) n []).

(** A decimal numeral without leading zero: digits, the first not '0'. *)
Definition positive_decimal (l : list ascii) : Prop :=
  Forall (fun c => is_digit c = true) l /\
  match l with c :: _ => c <> "0"%char | [] => False end.

(** ** Evaluation lemmas *)

Section Horner.
Variable base : nat.
Variable val : ascii -> nat.

Lemma horner_fold (l : list ascii) (a : nat) :
  fold_left (fun acc c => acc * base + val c) l a = a * base ^ length l + horner base val l.
Proof.
  revert a. induction l as [|c l IH]; intros a; [unfold horner; simpl; lia|].
  change (horner base val (c :: l))
    with (fold_left (fun acc c => acc * base + val c) l (0 * base + val c)).
  simpl fold_left. rewrite !IH. simpl. nia.
Qed.

Lemma horner_cons (c : ascii) (l : list ascii) :
  horner base val (c :: l) = val c * base ^ length l + horner base val l.
Proof. unfold horner at 1. simpl. rewrite horner_fold. lia. Qed.

Lemma horner_app (l1 l2 : list ascii) :
  horner base val (l1 ++ l2) = horner base val l1 * base ^ length l2 + horner base val l2.
Proof. unfold horner at 1. rewrite fold_left_app. fold (horner base val l1). apply horner_fold. Qed.

Lemma horner_nil : horner base val [] = 0.
Proof. reflexivity. Qed.
End Horner.

#[export] Hint Rewrite horner_cons horner_app horner_nil : umya_rw.

Lemma digit_value_char (d : nat) : d < 10 -> digit_value (digit_char d) = d.
Proof.
  intros Hd. unfold digit_value, digit_char.
  rewrite nat_ascii_embedding by lia. lia.
Qed.

Lemma is_digit_char (d : nat) : d < 10 -> is_digit (digit_char d) = true.
Proof.
  intros Hd. unfold is_digit, digit_char.
  rewrite nat_ascii_embedding by lia. apply andb_true_intro; split; apply Nat.leb_le; lia.
Qed.

Lemma decimal_digits_value (fuel n : nat) (acc : list ascii) :
  n < fuel ->
  horner 10 digit_value (decimal_digits fuel n acc)
  = n * 10 ^ length acc + horner 10 digit_value acc.
Proof.
  revert n acc. induction fuel as [|f IH]; intros n acc Hn; [lia|]. cbn [decimal_digits].
  pose proof (Nat.div_mod_eq n 10). pose proof (Nat.mod_upper_bound n 10 ltac:(lia)).
  destruct (Nat.ltb_spec n 10) as [Hlt|Hge].
  - rewrite (Nat.mod_small n 10 Hlt), horner_cons, digit_value_char by lia. lia.
  - assert (n / 10 < f) by (pose proof (Nat.div_lt n 10); lia).
    rewrite IH by lia. cbn [length].
    rewrite Nat.pow_succ_r', horner_cons, digit_value_char by lia. nia.
Qed.

Lemma decimal_digits_all (fuel n : nat) (acc : list ascii) :
  Forall (fun c => is_digit c = true) acc ->
  Forall (fun c => is_digit c = true) (decimal_digits fuel n acc).
Proof.
  revert n acc. induction fuel as [|f IH]; intros n acc Hacc; simpl; [done|].
  assert (Forall (fun c => is_digit c = true) (digit_char (n mod 10) :: acc)).
  { constructor; [apply is_digit_char, Nat.mod_upper_bound|]; done. }
  destruct (n <? 10); auto.
Qed.

Lemma decimal_digits_nonempty (fuel n : nat) (acc : list ascii) :
  0 < fuel -> decimal_digits fuel n acc <> [].
Proof.
  revert n acc. induction fuel as [|f IH]; intros n acc Hf; [lia|]. simpl.
  destruct (n <? 10); [discriminate|].
  destruct f; simpl; [discriminate|]. apply IH; lia.
Qed.

Lemma nat_to_string_value (n : nat) :
  horner 10 digit_value (chars_of (nat_to_string n)) = n.
Proof.
  unfold nat_to_string. rewrite chars_of_str_of, decimal_digits_value by lia.
  cbn [length]. rewrite Nat.pow_0_r, horner_nil. lia.
Qed.

Lemma nat_to_string_digits (n : nat) :
  Forall (fun c => is_digit c = true) (chars_of (nat_to_string n)).
Proof. unfold nat_to_string. rewrite chars_of_str_of. by apply decimal_digits_all. Qed.

Lemma nat_to_string_nonempty (n : nat) : chars_of (nat_to_string n) <> [].
Proof. unfold nat_to_string. rewrite chars_of_str_of. apply decimal_digits_nonempty. lia. Qed.

(** Division by the base undoes one Horner step. *)
Lemma horner_step_divmod (b h d : nat) :
  d < b -> (h * b + d) / b = h /\ (h * b + d) mod b = d.
Proof.
  intros Hd. split.
  - rewrite Nat.div_add_l, Nat.div_small by lia. lia.
  - rewrite Nat.add_comm, Nat.Div0.mod_add. by apply Nat.mod_small.
Qed.

Lemma digit_char_value (c : ascii) : is_digit c = true -> digit_char (digit_value c) = c.
Proof.
  unfold is_digit, digit_char, digit_value. intros [H1 H2]%andb_prop.
  apply Nat.leb_le in H1, H2. replace (48 + (nat_of_ascii c - 48)) with (nat_of_ascii c) by lia.
  apply ascii_nat_embedding.
Qed.

Lemma digit_value_bound (c : ascii) : is_digit c = true -> digit_value c < 10.
Proof. unfold is_digit, digit_value. intros [H1 H2]%andb_prop. apply Nat.leb_le in H1, H2. lia. Qed.

Lemma positive_decimal_value (l : list ascii) :
  positive_decimal l -> 1 <= horner 10 digit_value l.
Proof.
  destruct l as [|c t]; intros [Hd Hc]; [done|]. inversion Hd as [|? ? Hcd _]; subst.
  rewrite horner_cons. assert (digit_value c <> 0).
  { intros E. apply Hc. rewrite <- (digit_char_value c Hcd), E. reflexivity. }
  pose proof (Nat.pow_nonzero 10 (length t)). nia.
Qed.

(** Every decimal numeral without leading zero is the printed form of its
    value. *)
Lemma decimal_digits_canonical (l : list ascii) :
  positive_decimal l ->
  forall fuel acc, horner 10 digit_value l < fuel ->
  decimal_digits fuel (horner 10 digit_value l) acc = l ++ acc.
Proof.
  induction l as [|c l IH] using rev_ind; intros Hl fuel acc Hf; [by destruct Hl|].
  destruct Hl as [Hd Hhead]. apply Forall_app in Hd as [Hd Hc].
  inversion Hc as [|? ? Hcd _]; subst. pose proof (digit_value_bound c Hcd).
  rewrite horner_app in *. cbn [length] in *. rewrite horner_cons, horner_nil in *. simpl Nat.pow in *.
  destruct fuel as [|f]; [lia|]. cbn [decimal_digits].
  destruct (horner_step_divmod 10 (horner 10 digit_value l) (digit_value c)) as [Hdiv Hmod]; [lia|].
  replace (horner 10 digit_value l * 10 + (digit_value c * 1 + 0))
    with (horner 10 digit_value l * 10 + digit_value c) by lia.
  rewrite Hmod, digit_char_value by done.
  destruct l as [|c0 l'].
  - rewrite horner_nil in *. destruct (Nat.ltb_spec (0 * 10 + digit_value c) 10) as [_|?]; [reflexivity|lia].
  - assert (Hp : positive_decimal (c0 :: l')) by (split; done).
    pose proof (positive_decimal_value _ Hp).
    destruct (Nat.ltb_spec (horner 10 digit_value (c0 :: l') * 10 + digit_value c) 10); [lia|].
    rewrite Hdiv, IH by (done || lia). by rewrite <- app_assoc.
Qed.

Lemma nat_to_string_canonical (l : list ascii) :
  positive_decimal l -> chars_of (nat_to_string (horner 10 digit_value l)) = l.
Proof.
  intros Hl. unfold nat_to_string. rewrite chars_of_str_of, decimal_digits_canonical by (done || lia).
  apply app_nil_r.
Qed.
