(* ===== verification/TypedValue.v ===== *)
(** Typed attribute values (spec §3 TypedValue, §4.3): the [StringValue],
    [UInt32Value] and [BooleanValue] wrappers that every bound field of the
    object model uses. Their sources are not among the files under src/;
    the definitions follow the spec: a value is unset or set, reads as the
    type's default when unset, and [set_value_string] converts raw
    attribute text, leaving the value unset on a conversion error.

    A typeclass [ValueKind] states what a primitive type provides
    (default, printer, parser, range check) and [ValueKindLaws] the laws
    the clients rely on; the three instances discharge them. *)

From Stdlib Require Import String Ascii List Lia Arith NArith.
From stdpp Require Import base decidable list.
From S2P Require Import Prelude Numeral.
Import ListNotations.

(** ** The interface of a primitive value type *)

Class ValueKind (T : Type) := {
  default_value : T;
  value_to_string : T -> string;
  value_of_string : string -> option T;
  value_ok : T -> bool
}.

Class ValueKindLaws (T : Type) `{ValueKind T} := {
  of_to_string : forall v, value_ok v = true -> value_of_string (value_to_string v) = Some v;
  of_string_ok : forall s v, value_of_string s = Some v -> value_ok v = true;
  default_ok : value_ok default_value = true
}.

(** ** The wrapper: [struct XxxValue { value: Option<T> }] *)

Record Value (T : Type) := mkValue { value : option T }.
Arguments mkValue {T} value.
Arguments value {T} _.

Inductive ParseError := InvalidValue (raw : string).

Section ValueOps.
Context {T : Type} `{ValueKind T}.

Definition unset_value : Value T := mkValue None.

Definition get_value (v : Value T) : T :=
  match value v with
  | Some x => x
  | None => default_value
  end.

Definition set_value (x : T) (v : Value T) : Value T := mkValue (Some x).

Definition has_value (v : Value T) : bool :=
  match value v with Some _ => true | None => false end.

Definition get_value_string (v : Value T) : string := value_to_string (get_value v).

(** Conversion from raw attribute text: set on success; unset, with the
    error returned beside it, on failure (spec §4.3). *)
Definition set_value_string (s : string) (v : Value T) : Value T * option ParseError :=
  match value_of_string s with
  | Some x => (set_value x v, None)
  | None => (unset_value, Some (InvalidValue s))
  end.

(** Type invariant: a set value is in the type's range. *)
Definition value_wf (v : Value T) : Prop :=
  match value v with Some x => value_ok x = true | None => True end.
End ValueOps.

(** ** Instances *)

(** [StringValue]: any text. *)
#[export] Instance string_kind : ValueKind string := {|
  default_value := EmptyString;
  value_to_string s := s;
  value_of_string s := Some s;
  value_ok _ := true
|}.

(** [BooleanValue]: written "1"/"0"; read from "1", "0", "true", "false". *)
Definition bool_to_string (b : bool) : string := if b then "1"%string else "0"%string.

Definition bool_of_string (s : string) : option bool :=
  if String.eqb s "1" then Some true
  else if String.eqb s "true" then Some true
  else if String.eqb s "0" then Some false
  else if String.eqb s "false" then Some false
  else None.

#[export] Instance bool_kind : ValueKind bool := {|
  default_value := false;
  value_to_string := bool_to_string;
  value_of_string := bool_of_string;
  value_ok _ := true
|}.

(** [UInt32Value]: a [u32] kept as [N] below [2^32]; printed in decimal,
    read as Rust's [u32::from_str] does: an optional '+', then one or more
    decimal digits, rejected when the value does not fit 32 bits. *)
Definition u32_limit : N := 4294967296%N.

Definition u32_to_string (n : N) : string := nat_to_string (N.to_nat n).

Definition u32_of_chars (l : list ascii) : option N :=
  match l with
  | [] => None
  | _ =>
      if forallb is_digit l then
        let n := fold_left (fun acc c => acc * 10 + N.of_nat (digit_value c))%N l 0%N in
        if (n <? u32_limit)%N then Some n else None
      else None
  end.

Definition u32_of_string (s : string) : option N :=
  match chars_of s with
  | [] => None
  | c :: rest => if Ascii.eqb c "+" then u32_of_chars rest else u32_of_chars (c :: rest)
  end.

#[export] Instance u32_kind : ValueKind N := {|
  default_value := 0%N;
  value_to_string := u32_to_string;
  value_of_string := u32_of_string;
  value_ok n := (n <? u32_limit)%N
|}.

Abbreviation StringValue := (Value string).
Abbreviation BooleanValue := (Value bool).
Abbreviation UInt32Value := (Value N).

(** ** Laws of the instances *)

#[export] Instance string_kind_laws : ValueKindLaws string.
Proof. split; simpl; congruence. Qed.

#[export] Instance bool_kind_laws : ValueKindLaws bool.
Proof. split; [intros []; reflexivity | reflexivity | reflexivity]. Qed.

Lemma u32_fold_value (l : list ascii) (a : N) :
  fold_left (fun acc c => acc * 10 + N.of_nat (digit_value c))%N l a
  = (a * 10 ^ N.of_nat (length l) + N.of_nat (horner 10 digit_value l))%N.
Proof.
  revert a. induction l as [|c l IH]; intros a.
  { rewrite horner_nil. cbn [fold_left length N.of_nat]. rewrite N.pow_0_r. lia. }
  simpl fold_left. rewrite IH, horner_cons. cbn [length].
  rewrite Nat2N.inj_succ, N.pow_succ_r', Nat2N.inj_add, Nat2N.inj_mul, Nat2N.inj_pow. simpl (N.of_nat 10). nia.
Qed.

Lemma u32_of_chars_digits (l : list ascii) (n : nat) :
  l <> [] -> Forall (fun c => is_digit c = true) l -> horner 10 digit_value l = n ->
  (N.of_nat n < u32_limit)%N -> u32_of_chars l = Some (N.of_nat n).
Proof.
  intros Hne Hd Hv Hlt. unfold u32_of_chars.
  destruct l as [|c l]; [done|].
  assert (forallb is_digit (c :: l) = true) as ->.
  { apply forallb_forall. intros x Hx. rewrite List.Forall_forall in Hd. auto. }
  rewrite u32_fold_value, Hv. simpl N.mul. rewrite N.add_0_l.
  by destruct (N.ltb_spec (N.of_nat n) u32_limit); [|lia].
Qed.

Lemma digit_not_plus (c : ascii) : is_digit c = true -> Ascii.eqb c "+" = false.
Proof. intros H. destruct (Ascii.eqb_spec c "+"); [subst; discriminate|done]. Qed.

#[export] Instance u32_kind_laws : ValueKindLaws N.
Proof.
  split; simpl.
  - intros n Hn. apply N.ltb_lt in Hn. unfold u32_of_string, u32_to_string.
    pose proof (nat_to_string_digits (N.to_nat n)) as Hd.
    pose proof (nat_to_string_nonempty (N.to_nat n)) as Hne.
    pose proof (nat_to_string_value (N.to_nat n)) as Hv.
    destruct (chars_of (nat_to_string (N.to_nat n))) as [|c rest] eqn:E; [done|].
    inversion Hd as [|? ? Hc _]; subst. rewrite digit_not_plus by done.
    rewrite (u32_of_chars_digits _ (N.to_nat n)); [by rewrite N2Nat.id|done|done|done|lia].
  - intros s v. unfold u32_of_string, u32_of_chars.
    destruct (chars_of s) as [|c rest]; [done|].
    destruct (Ascii.eqb c "+"); [destruct rest|]; try done;
      repeat case_match; try done; intros Hv; simplify_eq; done.
  - done.
Qed.

(** ** Properties of the wrapper *)

Section ValueTheory.
Context {T : Type} `{ValueKindLaws T}.

Lemma get_value_wf (v : Value T) : value_wf v -> value_ok (get_value v) = true.
Proof. unfold value_wf, get_value. destruct (value v); [done|]. intros _. apply default_ok. Qed.

(** [set_value_string] keeps the range invariant: whatever the raw
    text, the resulting value is unset or a value in the type's range. *)
Lemma set_value_string_wf (s : string) (v : Value T) :
  value_wf (fst (set_value_string s v)).
Proof.
  unfold set_value_string. destruct (value_of_string s) eqn:E; simpl; [|done].
  eapply of_string_ok; eauto.
Qed.

(** Printing a well-formed value and converting the text back gives
    the value, now explicitly set, without error. *)
Lemma value_string_roundtrip (v w : Value T) :
  value_wf v -> set_value_string (get_value_string v) w = (set_value (get_value v) w, None).
Proof.
  intros Hv. unfold set_value_string, get_value_string.
  by rewrite of_to_string by (by apply get_value_wf).
Qed.

(** A conversion error leaves the value unset and reports the text. *)
Lemma set_value_string_error (s : string) (v : Value T) :
  value_of_string s = None -> set_value_string s v = (unset_value, Some (InvalidValue s)).
Proof. intros E. unfold set_value_string. by rewrite E. Qed.
End ValueTheory.

(** A [u32] read from text is below [2^32]. *)
Lemma u32_of_string_bound (s : string) (n : N) :
  u32_of_string s = Some n -> (n < u32_limit)%N.
Proof. intros E. apply N.ltb_lt. exact (of_string_ok (T:=N) s n E). Qed.

Example u32_of_string_samples :
  u32_of_string "4294967295" = Some 4294967295%N /\ u32_of_string "4294967296" = None /\
  u32_of_string "+7" = Some 7%N /\ u32_of_string "+" = None /\ u32_of_string "" = None /\
  u32_of_string "-1" = None /\ u32_of_string "007" = Some 7%N.
Proof. vm_compute. repeat split. Qed.

Example bool_of_string_samples :
  bool_of_string "1" = Some true /\ bool_of_string "true" = Some true /\
  bool_of_string "0" = Some false /\ bool_of_string "false" = Some false /\
  bool_of_string "yes" = None /\ bool_of_string "TRUE" = None.
Proof. vm_compute. repeat split. Qed.

