(* ===== verification/Xml.v ===== *)
(** The markup event layer the element readers and writers run on
    (spec §4.4, §4.5, §6): quick_xml's events, a reader as the finite list
    of what successive [read_event] calls return, the [get_attribute]
    helper and the writer helpers [write_start_tag], [write_text_node],
    [write_end_tag] of the crate's reader/writer drivers (those driver
    files are not under src/; they are modelled from the spec), and the
    escaping of text nodes with its inverse. *)

From Stdlib Require Import String Ascii List Lia Arith.
From stdpp Require Import base decidable list.
From S2P Require Import Prelude.
Import ListNotations.

(** ** Events *)

Abbreviation attribute := (string * string)%type.

(** quick_xml's [Event]: [Other] stands for the events no reader of this
    development dispatches on (declarations, comments, CDATA, processing
    instructions, doctype). Text is kept raw (escaped); attribute values
    are kept unescaped. *)
Inductive event : Type :=
  | Start (name : string) (attrs : list attribute)
  | Empty (name : string) (attrs : list attribute)
  | End (name : string)
  | Text (raw : string)
  | Eof
  | Other.

(** What one [reader.read_event(..)] call returns: [Ok(event)] or [Err]. *)
Inductive read_item : Type :=
  | Ev (e : event)
  | Fault.

(** A reader is the sequence of results its successive [read_event] calls
    give; past the end of the input, quick_xml keeps returning [Eof]. *)
Abbreviation reader := (list read_item).

Definition read_event (r : reader) : read_item * reader :=
  match r with
  | [] => (Ev Eof, [])
  | i :: r' => (i, r')
  end.

(** Fatal conditions of the read loops (each is a [panic!] or an
    [unwrap] failure in the Rust code). *)
Inductive xml_error : Type :=
  | UnexpectedEof (tag : string)
  | ReadFailed
  | UnescapeFailed
  | MissingAttribute (key : string).

(** [get_attribute(e, key)]: the value of the first attribute named [key]. *)
Fixpoint get_attribute (attrs : list attribute) (key : string) : option string :=
  match attrs with
  | [] => None
  | (k, v) :: rest => if String.eqb k key then Some v else get_attribute rest key
  end.

(** ** Escaping of text nodes *)

Definition dquote : ascii := ascii_of_nat 34.

(** The entity (without its leading '&') that stands for a reserved
    character. *)
Definition entity_of (c : ascii) : option (list ascii) :=
  if Ascii.eqb c "<" then Some (chars_of "lt;")
  else if Ascii.eqb c ">" then Some (chars_of "gt;")
  else if Ascii.eqb c "&" then Some (chars_of "amp;")
  else if Ascii.eqb c "'" then Some (chars_of "apos;")
  else if Ascii.eqb c dquote then Some (chars_of "quot;")
  else None.

Definition escape_char (c : ascii) : list ascii :=
  match entity_of c with
  | Some e => "&"%char :: e
  | None => [c]
  end.

(** quick_xml's [escape]: the five reserved characters become entities. *)
Definition escape (s : string) : string := str_of (concat (map escape_char (chars_of s))).

Fixpoint strip_prefix (p l : list ascii) : option (list ascii) :=
  match p, l with
  | [], _ => Some l
  | a :: p', b :: l' => if Ascii.eqb a b then strip_prefix p' l' else None
  | _ :: _, [] => None
  end.

(** The character named by the entity at the head of [l] (after '&'). *)
Definition strip_entity (l : list ascii) : option (ascii * list ascii) :=
  match strip_prefix (chars_of "lt;") l with
  | Some t => Some ("<"%char, t)
  | None =>
  match strip_prefix (chars_of "gt;") l with
  | Some t => Some (">"%char, t)
  | None =>
  match strip_prefix (chars_of "amp;") l with
  | Some t => Some ("&"%char, t)
  | None =>
  match strip_prefix (chars_of "apos;") l with
  | Some t => Some ("'"%char, t)
  | None =>
  match strip_prefix (chars_of "quot;") l with
  | Some t => Some (dquote, t)
  | None => None
  end end end end end.

Fixpoint unescape_fuel (fuel : nat) (l : list ascii) : option (list ascii) :=
  match fuel with
  | 0 => None
  | S f =>
      match l with
      | [] => Some []
      | c :: t =>
          if Ascii.eqb c "&" then
            match strip_entity t with
            | Some (d, t') => option_map (cons d) (unescape_fuel f t')
            | None => None
            end
          else option_map (cons c) (unescape_fuel f t)
      end
  end.

(** quick_xml's [unescape] on the five predefined entities: an '&' that
    does not start one of them is an error. Each step consumes at least
    one character, so [S (length l)] steps are enough. *)
Definition unescape (s : string) : option string :=
  option_map str_of (unescape_fuel (S (length (chars_of s))) (chars_of s)).

(** ** Writer

    A writer is the list of the events written so far, in order. *)
Abbreviation writer := (list event).

Definition write_start_tag (w : writer) (name : string) (attrs : list attribute)
  (empty : bool) : writer :=
  w ++ [if empty then Empty name attrs else Start name attrs].

Definition write_text_node (w : writer) (s : string) : writer := w ++ [Text (escape s)].

Definition write_end_tag (w : writer) (name : string) : writer := w ++ [End name].

(** ** Escaping round trip *)

Lemma strip_prefix_app (p t : list ascii) : strip_prefix p (p ++ t) = Some t.
Proof. induction p as [|a p IH]; simpl; [done|]. by rewrite Ascii.eqb_refl. Qed.

Lemma strip_entity_escaped (c : ascii) (e t : list ascii) :
  entity_of c = Some e -> strip_entity (e ++ t) = Some (c, t).
Proof.
  unfold entity_of. repeat case_chr; intros H; simplify_eq; reflexivity.
Qed.

Lemma entity_of_amp (c : ascii) : entity_of c = None -> Ascii.eqb c "&" = false.
Proof. unfold entity_of. repeat case_chr; done. Qed.

Lemma unescape_fuel_escaped (l : list ascii) (fuel : nat) :
  length (concat (map escape_char l)) < fuel ->
  unescape_fuel fuel (concat (map escape_char l)) = Some l.
Proof.
  revert fuel. induction l as [|c l IH]; intros [|f] Hf; simpl in *; try lia; [done|].
  unfold escape_char in *. destruct (entity_of c) as [e|] eqn:E; simpl in *.
  - try rewrite Ascii.eqb_refl. rewrite (strip_entity_escaped c) by done.
    rewrite length_app in Hf. by rewrite IH by lia.
  - rewrite entity_of_amp by done. by rewrite IH by lia.
Qed.

(** Reading back an escaped text node gives the text unchanged. *)
Lemma unescape_escape (s : string) : unescape (escape s) = Some s.
Proof.
  unfold unescape, escape. rewrite chars_of_str_of, unescape_fuel_escaped by lia.
  simpl. by rewrite str_of_chars_of.
Qed.

Example escape_sample :
  escape "a<b & 'c'" = "a&lt;b &amp; &apos;c&apos;"%string /\
  unescape "x&gt;y&amp;" = Some "x>y&"%string /\ unescape "a&b" = None.
Proof. vm_compute. repeat split. Qed.
