(* ===== verification/Coordinate.v ===== *)
(** Cell coordinates (spec §3 Address, §4.1, §4.2): column letters in
    bijective base 26 ([A]=1 ... [Z]=26, [AA]=27), row numbers in decimal,
    the [$] lock flags, the per-coordinate insert/remove adjustment of the
    reference adjuster, and the grammar of one corner [[$]COL[$]ROW] with
    its printer. The crate's coordinate helpers and [Coordinate] struct are
    not among the files under src/: they are modelled from the spec. *)

From Stdlib Require Import String Ascii List Lia Arith.
From stdpp Require Import base decidable list.
From S2P Require Import Prelude Numeral.
Import ListNotations.

(** ** Column letters *)

Definition is_upper (c : ascii) : bool :=
  (65 <=? nat_of_ascii c) && (nat_of_ascii c <=? 90).

Definition letter_value (c : ascii) : nat := nat_of_ascii c - 64.

Definition letter_char (d : nat) : ascii := ascii_of_nat (65 + d).

(** Letters of column [n] in front of [acc]: each step takes the last
    letter [(n-1) mod 26] and goes on with [(n-1) / 26]. *)
Fixpoint column_letters (fuel n : nat) (acc : list ascii) : list ascii :=
  match fuel with
  | 0 => acc
  | S f =>
      match n with
      | 0 => acc
      | S m => column_letters f (m / 26) (letter_char (m mod 26) :: acc)
      end
  end.

(** [string_from_column_index]: the letters of a column number. *)
Definition string_from_column_index (n : nat) : string := str_of (column_letters n n []).

(** [column_index_from_string]: the column number of a run of letters. *)
Definition column_index_from_string (s : string) : nat := horner 26 letter_value (chars_of s).

(** ** Coordinates: [ColumnReference], [RowReference], [Coordinate] *)

Record CellRef := mkRef { num : nat; is_lock : bool }.
Record Coordinate := mkCoord { column : CellRef; row : CellRef }.

#[export] Instance cellref_eq_dec : EqDecision CellRef.
Proof. intros [n1 l1] [n2 l2]. destruct (decide (n1 = n2)), (decide (l1 = l2)); subst;
  [left; done | right; congruence ..]. Defined.

#[export] Instance coordinate_eq_dec : EqDecision Coordinate.
Proof. intros [c1 r1] [c2 r2]. destruct (decide (c1 = c2)), (decide (r1 = r2)); subst;
  [left; done | right; congruence ..]. Defined.

(** Type invariant (spec §3): column and row numbers are at least 1. *)
Definition coordinate_wf (c : Coordinate) : Prop := 1 <= num (column c) /\ 1 <= num (row c).

(** ** Per-coordinate adjustment (spec §4.2)

    Insertion of [offset] lines at [root] moves every line at or after
    [root] down by [offset]; removal of [offset] lines from [root] moves
    the lines after the removed span up by [offset] and leaves the lines
    inside it in place (they are reported by [num_is_remove]). An
    [offset] of 0 leaves the axis alone. *)
Definition num_adjustment_insert (n root offset : nat) : nat :=
  if (0 <? offset) && (root <=? n) then n + offset else n.

Definition num_adjustment_remove (n root offset : nat) : nat :=
  if (0 <? offset) && (root + offset <=? n) then n - offset else n.

Definition num_is_remove (n root offset : nat) : bool :=
  (0 <? offset) && (root <=? n) && (n <? root + offset).

Definition coordinate_adjustment_insert (c : Coordinate) (root_col offset_col root_row offset_row : nat)
  : Coordinate :=
  mkCoord (mkRef (num_adjustment_insert (num (column c)) root_col offset_col) (is_lock (column c)))
          (mkRef (num_adjustment_insert (num (row c)) root_row offset_row) (is_lock (row c))).

Definition coordinate_adjustment_remove (c : Coordinate) (root_col offset_col root_row offset_row : nat)
  : Coordinate :=
  mkCoord (mkRef (num_adjustment_remove (num (column c)) root_col offset_col) (is_lock (column c)))
          (mkRef (num_adjustment_remove (num (row c)) root_row offset_row) (is_lock (row c))).

(** A corner is invalidated when its column lies in the removed columns
    or its row in the removed rows. *)
Definition coordinate_is_remove (c : Coordinate) (root_col offset_col root_row offset_row : nat) : bool :=
  num_is_remove (num (column c)) root_col offset_col
  || num_is_remove (num (row c)) root_row offset_row.

(** ** The corner grammar [[$]COL[$]ROW] *)

Definition lock_chars (b : bool) : list ascii := if b then ["$"%char] else [].

(** The printed corner: [$] markers from the lock flags, column letters,
    decimal row. *)
Definition coordinate_chars (c : Coordinate) : list ascii :=
  lock_chars (is_lock (column c)) ++ column_letters (num (column c)) (num (column c)) [] ++
  lock_chars (is_lock (row c)) ++ chars_of (nat_to_string (num (row c))).

(** The longest prefix whose characters satisfy [p], and the rest. *)
Fixpoint span (p : ascii -> bool) (l : list ascii) : list ascii * list ascii :=
  match l with
  | [] => ([], [])
  | c :: t => if p c then let '(a, b) := span p t in (c :: a, b) else ([], l)
  end.

Definition take_lock (l : list ascii) : bool * list ascii :=
  match l with
  | c :: t => if Ascii.eqb c "$" then (true, t) else (false, l)
  | [] => (false, [])
  end.

(** One corner at the head of [l], and what follows it. *)
Definition parse_coordinate (l : list ascii) : option (Coordinate * list ascii) :=
  let '(cl, l1) := take_lock l in
  let '(letters, l2) := span is_upper l1 in
  let '(rl, l3) := take_lock l2 in
  let '(digits, l4) := span is_digit l3 in
  match letters, digits with
  | _ :: _, _ :: _ =>
      Some (mkCoord (mkRef (horner 26 letter_value letters) cl)
                    (mkRef (horner 10 digit_value digits) rl), l4)
  | _, _ => None
  end.

(** [p] fails on the head of [l] (or [l] is empty). *)
Definition stops_at (p : ascii -> bool) (l : list ascii) : Prop :=
  match l with [] => True | c :: _ => p c = false end.

Lemma letter_value_char (d : nat) : d < 26 -> letter_value (letter_char d) = S d.
Proof. intros Hd. unfold letter_value, letter_char. rewrite nat_ascii_embedding by lia. lia. Qed.

Lemma is_upper_char (d : nat) : d < 26 -> is_upper (letter_char d) = true.
Proof.
  intros Hd. unfold is_upper, letter_char. rewrite nat_ascii_embedding by lia.
  apply andb_true_intro; split; apply Nat.leb_le; lia.
Qed.

Lemma is_upper_value (c : ascii) : is_upper c = true -> 1 <= letter_value c <= 26.
Proof. unfold is_upper, letter_value. intros [H1 H2]%andb_prop. apply Nat.leb_le in H1, H2. lia. Qed.

Lemma letter_char_value (c : ascii) : is_upper c = true -> letter_char (letter_value c - 1) = c.
Proof.
  intros H. pose proof (is_upper_value c H) as Hv. unfold letter_char, letter_value in *.
  replace (65 + (nat_of_ascii c - 64 - 1)) with (nat_of_ascii c) by lia.
  apply ascii_nat_embedding.
Qed.

Lemma column_letters_zero (fuel : nat) (acc : list ascii) : column_letters fuel 0 acc = acc.
Proof. by destruct fuel. Qed.

Lemma column_letters_value (fuel n : nat) (acc : list ascii) :
  n <= fuel ->
  horner 26 letter_value (column_letters fuel n acc)
  = n * 26 ^ length acc + horner 26 letter_value acc.
Proof.
  revert n acc. induction fuel as [|f IH]; intros [|m] acc Hn; cbn [column_letters]; try lia.
  pose proof (Nat.div_mod_eq m 26). pose proof (Nat.mod_upper_bound m 26 ltac:(lia)).
  assert (m / 26 <= f) by (pose proof (Nat.Div0.div_le_upper_bound m 26 m); lia).
  rewrite IH by lia. cbn [length]. rewrite Nat.pow_succ_r', horner_cons, letter_value_char by lia.
  nia.
Qed.

Lemma column_letters_upper (fuel n : nat) (acc : list ascii) :
  Forall (fun c => is_upper c = true) acc ->
  Forall (fun c => is_upper c = true) (column_letters fuel n acc).
Proof.
  revert n acc. induction fuel as [|f IH]; intros [|m] acc Hacc; cbn [column_letters]; auto.
  apply IH. constructor; [apply is_upper_char, Nat.mod_upper_bound|]; done.
Qed.

Lemma column_letters_nonempty (fuel n : nat) (acc : list ascii) :
  1 <= n <= fuel -> column_letters fuel n acc <> [].
Proof.
  revert n acc. induction fuel as [|f IH]; intros [|m] acc Hn; cbn [column_letters]; try lia.
  destruct (decide (m / 26 = 0)) as [->|Hq].
  - rewrite column_letters_zero. discriminate.
  - apply IH. pose proof (Nat.Div0.div_le_upper_bound m 26 m). lia.
Qed.

(** Every run of capital letters is the printed form of its value: the
    letters printing is onto the capital-letter strings (bijective base 26
    has no leading-zero forms). *)
Lemma column_letters_canonical (l : list ascii) :
  Forall (fun c => is_upper c = true) l ->
  forall fuel acc, horner 26 letter_value l <= fuel ->
  column_letters fuel (horner 26 letter_value l) acc = l ++ acc.
Proof.
  induction l as [|c l IH] using rev_ind; intros Hl fuel acc Hf.
  { apply column_letters_zero. }
  apply Forall_app in Hl as [Hl Hc]. inversion Hc as [|? ? Hcu _]; subst.
  pose proof (is_upper_value c Hcu) as Hv.
  rewrite horner_app in *. cbn [length] in *. rewrite horner_cons, horner_nil in *. simpl Nat.pow in *.
  destruct fuel as [|f]; [lia|].
  replace (horner 26 letter_value l * 26 + (letter_value c * 1 + 0))
    with (S (horner 26 letter_value l * 26 + (letter_value c - 1))) by lia.
  cbn [column_letters].
  destruct (horner_step_divmod 26 (horner 26 letter_value l) (letter_value c - 1)) as [-> ->]; [lia|].
  rewrite letter_char_value by done.
  rewrite IH by (try done; lia). by rewrite <- app_assoc.
Qed.

(** The column letters of any column number read back as that
    number ([column_index_from_string] inverts [string_from_column_index]). *)
Lemma column_index_roundtrip (n : nat) :
  column_index_from_string (string_from_column_index n) = n.
Proof.
  unfold column_index_from_string, string_from_column_index.
  rewrite chars_of_str_of, column_letters_value by lia.
  cbn [length]. rewrite Nat.pow_0_r, horner_nil. lia.
Qed.

(** Every non-empty run of capital letters is the printed form of the
    column number it denotes, so the printer is onto the column syntax. *)
Lemma column_string_roundtrip (s : string) :
  Forall (fun c => is_upper c = true) (chars_of s) ->
  string_from_column_index (column_index_from_string s) = s.
Proof.
  intros H. unfold string_from_column_index, column_index_from_string.
  rewrite column_letters_canonical by (done || lia). rewrite app_nil_r. apply str_of_chars_of.
Qed.

Example column_samples :
  string_from_column_index 1 = "A"%string /\ string_from_column_index 26 = "Z"%string /\
  string_from_column_index 27 = "AA"%string /\ string_from_column_index 16384 = "XFD"%string /\
  column_index_from_string "AZ" = 52.
Proof. vm_compute. repeat split. Qed.

Ltac adjust_cases :=
  unfold num_adjustment_insert, num_adjustment_remove, num_is_remove in *;
  repeat match goal with
         | |- context [?a <? ?b] => destruct (Nat.ltb_spec a b)
         | |- context [?a <=? ?b] => destruct (Nat.leb_spec a b)
         | H : context [?a <? ?b] |- _ => destruct (Nat.ltb_spec a b)
         | H : context [?a <=? ?b] |- _ => destruct (Nat.leb_spec a b)
         end; simpl in *; try lia.

Lemma remove_insert_coordinate (n root offset : nat) :
  num_adjustment_remove (num_adjustment_insert n root offset) root offset = n.
Proof. adjust_cases. Qed.

Lemma insert_not_removed (n root offset : nat) :
  num_is_remove (num_adjustment_insert n root offset) root offset = false.
Proof. adjust_cases; done. Qed.

Lemma insert_coordinate_mono (n m root offset : nat) :
  n <= m -> num_adjustment_insert n root offset <= num_adjustment_insert m root offset.
Proof. intros. adjust_cases. Qed.

Lemma insert_coordinate_pos (n root offset : nat) :
  1 <= n -> 1 <= num_adjustment_insert n root offset.
Proof. intros. adjust_cases. Qed.

Lemma remove_coordinate_pos (n root offset : nat) :
  1 <= root -> 1 <= n -> 1 <= num_adjustment_remove n root offset.
Proof. intros. adjust_cases. Qed.

Lemma remove_coordinate_mono (n m root offset : nat) :
  n <= m -> num_is_remove n root offset = false ->
  num_adjustment_remove n root offset <= num_adjustment_remove m root offset.
Proof. intros. adjust_cases; discriminate. Qed.

(** Removal then insertion restores a line outside the removed span. *)
Lemma insert_remove_coordinate (n root offset : nat) :
  num_is_remove n root offset = false ->
  num_adjustment_insert (num_adjustment_remove n root offset) root offset = n.
Proof. intros. adjust_cases; discriminate. Qed.

(** Insertion moves a line by at most the inserted count. *)
Lemma insert_coordinate_le (n root offset : nat) : num_adjustment_insert n root offset <= n + offset.
Proof. adjust_cases. Qed.

Lemma coordinate_insert_remove (c : Coordinate) (rc oc rr orr : nat) :
  coordinate_is_remove c rc oc rr orr = false ->
  coordinate_adjustment_insert (coordinate_adjustment_remove c rc oc rr orr) rc oc rr orr = c.
Proof.
  destruct c as [[cn cl] [rn rl]]. unfold coordinate_is_remove. cbn [column row num].
  intros [Hc Hr]%orb_false_iff. unfold coordinate_adjustment_insert, coordinate_adjustment_remove.
  cbn [column row num is_lock]. by rewrite !insert_remove_coordinate.
Qed.

#[export] Hint Resolve insert_coordinate_mono insert_coordinate_pos remove_coordinate_pos
  remove_coordinate_mono : umya.
#[export] Hint Rewrite remove_insert_coordinate insert_not_removed : umya_rw.

Lemma span_app (p : ascii -> bool) (l rest : list ascii) :
  Forall (fun c => p c = true) l -> stops_at p rest -> span p (l ++ rest) = (l, rest).
Proof.
  intros Hl Hr. induction Hl as [|c l Hc _ IH]; simpl.
  - destruct rest as [|d t]; simpl in *; [done|]. by rewrite Hr.
  - by rewrite Hc, IH.
Qed.

Lemma span_spec (p : ascii -> bool) (l a b : list ascii) :
  span p l = (a, b) -> l = a ++ b /\ Forall (fun c => p c = true) a /\ stops_at p b.
Proof.
  revert a b. induction l as [|c t IH]; intros a b; simpl.
  - intros; simplify_eq. done.
  - destruct (p c) eqn:Hc.
    + destruct (span p t) as [a' b'] eqn:E. intros H. injection H as <- <-.
      destruct (IH a' b' eq_refl) as (-> & ? & ?). split; [done|]. split; [by constructor|done].
    + intros H. injection H as <- <-. simpl. by rewrite Hc.
Qed.

Lemma take_lock_chars (b : bool) (t : list ascii) :
  stops_at (fun c => Ascii.eqb c "$") t -> take_lock (lock_chars b ++ t) = (b, t).
Proof.
  destruct b; simpl; [done|].
  destruct t as [|c t]; simpl; [done|]. intros ->. done.
Qed.

Lemma upper_not_lock (c : ascii) : is_upper c = true -> Ascii.eqb c "$" = false.
Proof. intros H. case_chr; [discriminate|done]. Qed.

Lemma digit_not_lock (c : ascii) : is_digit c = true -> Ascii.eqb c "$" = false.
Proof. intros H. case_chr; [discriminate|done]. Qed.

Lemma digit_not_upper (c : ascii) : is_digit c = true -> is_upper c = false.
Proof.
  unfold is_digit, is_upper. intros [H1 H2]%andb_prop. apply Nat.leb_le in H1, H2.
  destruct (Nat.leb_spec 65 (nat_of_ascii c)); [lia|done].
Qed.

Lemma stops_at_head (p : ascii -> bool) (l t : list ascii) :
  Forall (fun c => p c = true) l -> l <> [] -> forall q, (forall c, p c = true -> q c = false) ->
  stops_at q (l ++ t).
Proof. intros Hl Hne q Hq. destruct Hl as [|c l' Hc _]; [done|]. simpl. auto. Qed.

Lemma row_chars_facts (n : nat) :
  let d := chars_of (nat_to_string n) in
  Forall (fun c => is_digit c = true) d /\ d <> [] /\ horner 10 digit_value d = n.
Proof. split; [apply nat_to_string_digits|split; [apply nat_to_string_nonempty|apply nat_to_string_value]]. Qed.

Lemma column_chars_facts (n : nat) :
  1 <= n ->
  let l := column_letters n n [] in
  Forall (fun c => is_upper c = true) l /\ l <> [] /\ horner 26 letter_value l = n.
Proof.
  intros Hn. split; [by apply column_letters_upper|split; [apply column_letters_nonempty; lia|]].
  rewrite column_letters_value by lia. cbn [length]. rewrite Nat.pow_0_r, horner_nil. lia.
Qed.

(** Parsing a printed corner gives the corner back, whatever follows it
    as long as it does not continue the row number. *)
Lemma parse_coordinate_chars (c : Coordinate) (rest : list ascii) :
  coordinate_wf c -> stops_at is_digit rest ->
  parse_coordinate (coordinate_chars c ++ rest) = Some (c, rest).
Proof.
  destruct c as [[cn cl] [rn rl]]. intros [Hc Hr] Hrest. simpl in *.
  destruct (column_chars_facts cn Hc) as (Hu & Hne & Hv).
  destruct (row_chars_facts rn) as (Hd & Hdne & Hdv).
  unfold parse_coordinate, coordinate_chars; simpl. rewrite <- !app_assoc.
  rewrite take_lock_chars by (eapply stops_at_head; eauto using upper_not_lock).
  rewrite span_app; [|done|].
  2:{ destruct rl; simpl; [done|]. eapply stops_at_head; eauto using digit_not_upper. }
  rewrite take_lock_chars by (eapply stops_at_head; eauto using digit_not_lock).
  rewrite span_app by done.
  destruct (column_letters cn cn []) as [|x xs]; [done|].
  destruct (chars_of (nat_to_string rn)) as [|y ys]; [done|].
  by rewrite Hv, Hdv.
Qed.
