(* ===== verification/Address.v ===== *)
(** Sheet-qualified cell and range references (spec §3 Address, §4.1,
    §4.2, §6): the [Range] and [Address] structs, the printer
    [get_address_ptn2], the recognizer [is_address] of the reference
    grammar, the parser [Address::address_set_address], the un-doubling of quotes
    that [DefinedName::add_address] applies before parsing (defined_name.rs
    line 55), and the range adjustment and removal test the reference
    adjuster runs. Apart from that [replace] call, this code is not among
    the files under src/: it is modelled from the spec's grammar
    [['sheet'!|sheet!][$]COL[$]ROW[:[$]COL[$]ROW]]. *)

From Stdlib Require Import String Ascii List Lia Arith.
From stdpp Require Import base decidable list.
From S2P Require Import Prelude Numeral Coordinate.
Import ListNotations.

(** ** Data *)

Record Range := mkRange { coordinate_start : Coordinate; coordinate_end : option Coordinate }.
Record Address := mkAddress { sheet_name : string; range : Range }.

Definition range_wf (r : Range) : Prop :=
  coordinate_wf (coordinate_start r) /\
  match coordinate_end r with Some e => coordinate_wf e | None => True end.

(** A sheet name does not begin with an apostrophe (a rule of the file
    format: Excel refuses such names). *)
Definition sheet_name_ok (s : string) : Prop :=
  match chars_of s with c :: _ => c <> "'"%char | [] => True end.

Definition address_wf (a : Address) : Prop := range_wf (range a) /\ sheet_name_ok (sheet_name a).

(** ** Printing: [get_address_ptn2] *)

Definition is_lower (c : ascii) : bool := (97 <=? nat_of_ascii c) && (nat_of_ascii c <=? 122).

(** The characters a sheet name may have without quoting. *)
Definition is_name_char (c : ascii) : bool :=
  is_upper c || is_lower c || is_digit c || Ascii.eqb c "_".

Definition double_quotes (l : list ascii) : list ascii :=
  flat_map (fun c => if Ascii.eqb c "'" then ["'"%char; "'"%char] else [c]) l.

(** [sheet!], or ['sh''eet'!] when the name has a character outside
    [[A-Za-z0-9_]], or nothing for an unqualified reference. *)
Definition sheet_prefix (s : string) : list ascii :=
  match chars_of s with
  | [] => []
  | l => if forallb is_name_char l then l ++ ["!"%char]
         else "'"%char :: double_quotes l ++ ["'"%char; "!"%char]
  end.

Definition range_chars (r : Range) : list ascii :=
  coordinate_chars (coordinate_start r) ++
  match coordinate_end r with
  | Some e => ":"%char :: coordinate_chars e
  | None => []
  end.

Definition get_address_ptn2 (a : Address) : string :=
  str_of (sheet_prefix (sheet_name a) ++ range_chars (range a)).

(** ** Recognizing: [is_address] *)

Definition parse_range (l : list ascii) : option Range :=
  match parse_coordinate l with
  | Some (s, []) => Some (mkRange s None)
  | Some (s, c :: t) =>
      if Ascii.eqb c ":" then
        match parse_coordinate t with
        | Some (e, []) => Some (mkRange s (Some e))
        | _ => None
        end
      else None
  | None => None
  end.

(** The body of a quoted sheet name (after its opening quote): a doubled
    quote stands for one quote, a single quote closes the name. Returns
    the name and what follows the closing quote. *)
Fixpoint quoted_name (l : list ascii) : option (list ascii * list ascii) :=
  match l with
  | [] => None
  | c :: t =>
      if Ascii.eqb c "'" then
        match t with
        | d :: t' =>
            if Ascii.eqb d "'" then option_map (fun '(n, r) => (c :: n, r)) (quoted_name t')
            else Some ([], t)
        | [] => Some ([], [])
        end
      else option_map (fun '(n, r) => (c :: n, r)) (quoted_name t)
  end.

(** The part before the first [d], and the part after it. *)
Fixpoint break_at (d : ascii) (l : list ascii) : option (list ascii * list ascii) :=
  match l with
  | [] => None
  | c :: t => if Ascii.eqb c d then Some ([], t) else option_map (fun '(a, b) => (c :: a, b)) (break_at d t)
  end.

(** The sheet qualifier of a token and the reference part after it. *)
Definition split_sheet (l : list ascii) : option (list ascii * list ascii) :=
  match l with
  | c :: t =>
      if Ascii.eqb c "'" then
        match quoted_name t with
        | Some (n, b :: r) => if Ascii.eqb b "!" then Some (n, r) else None
        | _ => None
        end
      else
        match break_at "!" l with
        | Some ([], _) => None
        | Some (p, r) => if forallb is_name_char p then Some (p, r) else None
        | None => Some ([], l)
        end
  | [] => Some ([], [])
  end.

(** [helper::address::is_address]: does the token match the reference
    grammar? *)
Definition is_address (s : string) : bool :=
  match split_sheet (chars_of s) with
  | Some (_, r) => match parse_range r with Some _ => true | None => false end
  | None => false
  end.

(** ** Parsing: [Address::address_set_address] *)

(** Split at the last '!'. *)
Definition rsplit_bang (l : list ascii) : option (list ascii * list ascii) :=
  match break_at "!" (rev l) with
  | Some (rs, rp) => Some (rev rp, rev rs)
  | None => None
  end.

(** Remove one enclosing pair of quotes. *)
Definition trim_quotes (l : list ascii) : list ascii :=
  match l with
  | c :: t =>
      if Ascii.eqb c "'" then
        match rev t with
        | d :: m => if Ascii.eqb d "'" then rev m else l
        | [] => l
        end
      else l
  | [] => []
  end.

(** The sheet (when the text has one) and the range of the text; an
    unparsable range leaves the address as it was. *)
Definition address_set_address (s : string) (a : Address) : Address :=
  let l := chars_of s in
  let '(sheet, rl) :=
    match rsplit_bang l with
    | Some (p, r) => (str_of (trim_quotes p), r)
    | None => (sheet_name a, l)
    end in
  match parse_range rl with
  | Some r => mkAddress sheet r
  | None => a
  end.

Definition default_address : Address :=
  mkAddress EmptyString (mkRange (mkCoord (mkRef 0 false) (mkRef 0 false)) None).

(** [value.replace("''", "'")]: non-overlapping occurrences, left to
    right. *)
Fixpoint replace_dq (l : list ascii) : list ascii :=
  match l with
  | [] => []
  | c :: t =>
      if Ascii.eqb c "'" then
        match t with
        | d :: t' => if Ascii.eqb d "'" then c :: replace_dq t' else c :: replace_dq t
        | [] => [c]
        end
      else c :: replace_dq t
  end.

(** ** Adjustment (spec §4.2): [Range::adjustment_insert_coordinate],
    [Range::adjustment_remove_coordinate], [Address::is_remove] *)

Definition range_adjustment_insert (r : Range) (root_col offset_col root_row offset_row : nat) : Range :=
  mkRange (coordinate_adjustment_insert (coordinate_start r) root_col offset_col root_row offset_row)
          (option_map (fun e => coordinate_adjustment_insert e root_col offset_col root_row offset_row)
                      (coordinate_end r)).

Definition range_adjustment_remove (r : Range) (root_col offset_col root_row offset_row : nat) : Range :=
  mkRange (coordinate_adjustment_remove (coordinate_start r) root_col offset_col root_row offset_row)
          (option_map (fun e => coordinate_adjustment_remove e root_col offset_col root_row offset_row)
                      (coordinate_end r)).

(** A range is dropped when all its corners are invalidated. *)
Definition range_is_remove (r : Range) (root_col offset_col root_row offset_row : nat) : bool :=
  coordinate_is_remove (coordinate_start r) root_col offset_col root_row offset_row &&
  match coordinate_end r with
  | Some e => coordinate_is_remove e root_col offset_col root_row offset_row
  | None => true
  end.

Definition address_is_remove (a : Address) (sheet : string)
  (root_col offset_col root_row offset_row : nat) : bool :=
  String.eqb (sheet_name a) sheet && range_is_remove (range a) root_col offset_col root_row offset_row.

Definition address_adjustment_insert (a : Address) (root_col offset_col root_row offset_row : nat) : Address :=
  mkAddress (sheet_name a) (range_adjustment_insert (range a) root_col offset_col root_row offset_row).

Definition address_adjustment_remove (a : Address) (root_col offset_col root_row offset_row : nat) : Address :=
  mkAddress (sheet_name a) (range_adjustment_remove (range a) root_col offset_col root_row offset_row).

(** A range none of whose corners lies in a removed row or column. *)
Definition range_clear (r : Range) (root_col offset_col root_row offset_row : nat) : Prop :=
  coordinate_is_remove (coordinate_start r) root_col offset_col root_row offset_row = false /\
  match coordinate_end r with
  | Some e => coordinate_is_remove e root_col offset_col root_row offset_row = false
  | None => True
  end.

(** Every column of a range below [mc] and every row below [mr] (as the
    unsigned integers of the code). *)
Definition coordinate_below (c : Coordinate) (mc mr : Z) : Prop :=
  (Z.of_nat (num (column c)) < mc)%Z /\ (Z.of_nat (num (row c)) < mr)%Z.

Definition range_below (r : Range) (mc mr : Z) : Prop :=
  coordinate_below (coordinate_start r) mc mr /\
  match coordinate_end r with Some e => coordinate_below e mc mr | None => True end.

(** ** Character classes *)

(** The characters a printed range is made of. *)
Definition is_ref_char (c : ascii) : bool :=
  Ascii.eqb c "$" || is_upper c || is_digit c || Ascii.eqb c ":".

(** ** Adjustment of ranges *)

(** Corners in order on both axes. *)
Definition range_sorted (r : Range) : Prop :=
  match coordinate_end r with
  | Some e => num (column (coordinate_start r)) <= num (column e) /\
              num (row (coordinate_start r)) <= num (row e)
  | None => True
  end.

Definition sample_address : Address :=
  mkAddress "O'Brien, (2)" (mkRange (mkCoord (mkRef 2 true) (mkRef 2 true))
                                    (Some (mkCoord (mkRef 28 false) (mkRef 100 false)))).

#[export] Instance range_eq_dec : EqDecision Range.
Proof. intros [s1 e1] [s2 e2]. destruct (decide (s1 = s2)), (decide (e1 = e2)); subst;
  [left; done | right; congruence ..]. Defined.

#[export] Instance address_eq_dec : EqDecision Address.
Proof. intros [n1 r1] [n2 r2]. destruct (decide (n1 = n2)), (decide (r1 = r2)); subst;
  [left; done | right; congruence ..]. Defined.

Lemma ref_char_not (c : ascii) :
  is_ref_char c = true -> Ascii.eqb c "'" = false /\ Ascii.eqb c "!" = false.
Proof. intros H. split; case_chr; try done; discriminate. Qed.

Lemma name_char_not (c : ascii) :
  is_name_char c = true -> Ascii.eqb c "'" = false /\ Ascii.eqb c "!" = false.
Proof. intros H. split; case_chr; try done; discriminate. Qed.

Lemma Forall_impl_bool (p q : ascii -> bool) (l : list ascii) :
  (forall c, p c = true -> q c = true) -> Forall (fun c => p c = true) l -> Forall (fun c => q c = true) l.
Proof. intros Hpq Hl. eapply Forall_impl; eauto. Qed.

Lemma coordinate_chars_ref (c : Coordinate) : Forall (fun x => is_ref_char x = true) (coordinate_chars c).
Proof.
  unfold coordinate_chars.
  assert (Hl : forall b, Forall (fun x => is_ref_char x = true) (lock_chars b)) by (intros []; repeat constructor).
  repeat apply Forall_app_2; auto.
  - eapply Forall_impl_bool; [|by apply column_letters_upper].
    intros x Hx. unfold is_ref_char. by rewrite Hx, orb_true_r.
  - eapply Forall_impl_bool; [|apply nat_to_string_digits].
    intros x Hx. unfold is_ref_char. by rewrite Hx, !orb_true_r.
Qed.

Lemma range_chars_ref (r : Range) : Forall (fun x => is_ref_char x = true) (range_chars r).
Proof.
  unfold range_chars. apply Forall_app_2; [apply coordinate_chars_ref|].
  destruct (coordinate_end r); [|constructor]. constructor; [done|apply coordinate_chars_ref].
Qed.

Lemma range_chars_nonempty (r : Range) : range_wf r -> range_chars r <> [].
Proof.
  intros [[Hc _] _]. unfold range_chars, coordinate_chars.
  pose proof (column_letters_nonempty (num (column (coordinate_start r)))
                (num (column (coordinate_start r))) [] ltac:(lia)).
  destruct (is_lock (column (coordinate_start r))); simpl; [discriminate|].
  destruct (column_letters _ _ []); [done|discriminate].
Qed.

(** ** Quoting lemmas *)

Lemma replace_dq_plain (l : list ascii) :
  Forall (fun c => Ascii.eqb c "'" = false) l -> replace_dq l = l.
Proof. induction 1 as [|c l Hc _ IH]; simpl; [done|]. by rewrite Hc, IH. Qed.

Lemma replace_dq_double (s t : list ascii) : replace_dq (double_quotes s ++ t) = s ++ replace_dq t.
Proof.
  induction s as [|c s IH]; simpl; [done|].
  case_chr; simpl; [by rewrite IH|].
  destruct (Ascii.eqb_spec c "'"); [done|]. by rewrite IH.
Qed.

Lemma quoted_name_double (s t : list ascii) :
  stops_at (fun c => Ascii.eqb c "'") t ->
  quoted_name (double_quotes s ++ "'"%char :: t) = Some (s, t).
Proof.
  intros Ht. induction s as [|c s IH]; simpl.
  - destruct t as [|d t]; simpl in *; [done|]. by rewrite Ht.
  - case_chr; simpl.
    + by rewrite IH.
    + destruct (Ascii.eqb_spec c "'"); [done|]. by rewrite IH.
Qed.

Lemma break_at_app (d : ascii) (p r : list ascii) :
  Forall (fun c => Ascii.eqb c d = false) p -> break_at d (p ++ d :: r) = Some (p, r).
Proof.
  induction 1 as [|c p Hc _ IH]; simpl; [by rewrite Ascii.eqb_refl|]. by rewrite Hc, IH.
Qed.

Lemma break_at_none (d : ascii) (l : list ascii) :
  Forall (fun c => Ascii.eqb c d = false) l -> break_at d l = None.
Proof. induction 1 as [|c l Hc _ IH]; simpl; [done|]. by rewrite Hc, IH. Qed.

Lemma rsplit_bang_app (p r : list ascii) :
  Forall (fun c => Ascii.eqb c "!" = false) r -> rsplit_bang (p ++ "!"%char :: r) = Some (p, r).
Proof.
  intros Hr. unfold rsplit_bang. rewrite rev_app_distr. simpl. rewrite <- app_assoc. simpl.
  rewrite break_at_app by (by apply Forall_rev). by rewrite !rev_involutive.
Qed.

Lemma trim_quotes_quoted (s : list ascii) : trim_quotes ("'"%char :: s ++ ["'"%char]) = s.
Proof. simpl. rewrite rev_app_distr. simpl. by rewrite rev_involutive. Qed.

Lemma trim_quotes_plain (s : list ascii) :
  stops_at (fun c => Ascii.eqb c "'") s -> trim_quotes s = s.
Proof. destruct s as [|c s]; simpl; [done|]. by intros ->. Qed.

Lemma parse_range_chars (r : Range) : range_wf r -> parse_range (range_chars r) = Some r.
Proof.
  destruct r as [s [e|]]; intros [Hs He]; unfold parse_range, range_chars;
    cbn [coordinate_start coordinate_end] in *.
  - rewrite parse_coordinate_chars by done. cbn iota. rewrite Ascii.eqb_refl.
    pose proof (parse_coordinate_chars e [] He I) as P. rewrite app_nil_r in P. by rewrite P.
  - pose proof (parse_coordinate_chars s [] Hs I) as P. rewrite app_nil_r in P.
    rewrite app_nil_r. by rewrite P.
Qed.

Lemma Forall_ref_not (l : list ascii) :
  Forall (fun c => is_ref_char c = true) l ->
  Forall (fun c => Ascii.eqb c "'" = false) l /\ Forall (fun c => Ascii.eqb c "!" = false) l.
Proof. intros H. split; eapply Forall_impl; eauto; intros c Hc; apply (ref_char_not c Hc). Qed.

Lemma Forall_name_not (l : list ascii) :
  Forall (fun c => is_name_char c = true) l ->
  Forall (fun c => Ascii.eqb c "'" = false) l /\ Forall (fun c => Ascii.eqb c "!" = false) l.
Proof. intros H. split; eapply Forall_impl; eauto; intros c Hc; apply (name_char_not c Hc). Qed.

Lemma name_chars_forall (l : list ascii) :
  forallb is_name_char l = true -> Forall (fun c => is_name_char c = true) l.
Proof. intros H. apply List.Forall_forall. intros x Hx. by eapply forallb_forall in H. Qed.

(** ** Round trip of the reference syntax *)

(** Every well-formed address prints to a token that [is_address]
    recognizes, whatever its sheet name (plain, quoted, with embedded
    quotes, commas or '!'). *)
Lemma is_address_ptn2 (a : Address) : address_wf a -> is_address (get_address_ptn2 a) = true.
Proof.
  intros [Hr Hs]. unfold is_address, get_address_ptn2, sheet_prefix. rewrite chars_of_str_of.
  pose proof (parse_range_chars _ Hr) as P. pose proof (range_chars_nonempty _ Hr) as Hne.
  destruct (Forall_ref_not _ (range_chars_ref (range a))) as [Hq Hb].
  revert P Hne Hq Hb. generalize (range_chars (range a)). intros R P Hne Hq Hb.
  unfold sheet_name_ok in Hs. destruct (chars_of (sheet_name a)) as [|c l] eqn:E.
  - destruct R as [|x xs]; [done|]. cbn [app]. unfold split_sheet. inversion Hq as [|? ? Hx _]; subst.
    rewrite Hx, (break_at_none "!" (x :: xs) Hb). by rewrite P.
  - destruct (forallb is_name_char (c :: l)) eqn:F.
    + destruct (Forall_name_not _ (name_chars_forall _ F)) as [Nq Nb].
      cbn iota. rewrite <- app_assoc. simpl (["!"%char] ++ R). unfold split_sheet. cbn [app].
      inversion Nq as [|? ? Hc _]; subst. rewrite Hc.
      change (c :: l ++ "!"%char :: R) with ((c :: l) ++ "!"%char :: R).
      rewrite (break_at_app "!" (c :: l) R Nb). rewrite F. by rewrite P.
    + cbn iota. set (D := double_quotes (c :: l)).
      simpl (("'"%char :: _) ++ _). rewrite <- app_assoc. unfold split_sheet.
      rewrite Ascii.eqb_refl. simpl (["'"%char; "!"%char] ++ R).
      unfold D. rewrite quoted_name_double by done. simpl. by rewrite P.
Qed.

(** The proof of [set_address_ptn2], for use by the other lemmas. *)
Lemma set_address_ptn2_core (a : Address) :
  address_wf a ->
  address_set_address (str_of (replace_dq (chars_of (get_address_ptn2 a)))) default_address = a.
Proof.
  destruct a as [sheet r]. intros [Hr Hs].
  unfold address_set_address, get_address_ptn2, sheet_prefix. cbn [sheet_name range] in *.
  rewrite !chars_of_str_of.
  pose proof (parse_range_chars _ Hr) as P.
  destruct (Forall_ref_not _ (range_chars_ref r)) as [Hq Hb].
  revert P Hq Hb. generalize (range_chars r). intros R P Hq Hb.
  unfold sheet_name_ok in Hs. destruct (chars_of sheet) as [|c l] eqn:E.
  - simpl. rewrite replace_dq_plain by done. unfold rsplit_bang.
    rewrite break_at_none by (by apply Forall_rev). rewrite P. simpl.
    f_equal. apply chars_of_inj. by rewrite E.
  - destruct (forallb is_name_char (c :: l)) eqn:F.
    + destruct (Forall_name_not _ (name_chars_forall _ F)) as [Nq Nb].
      rewrite replace_dq_plain by (apply Forall_app_2; [apply Forall_app_2; [done|repeat constructor]|done]).
      rewrite <- app_assoc. simpl (["!"%char] ++ R). rewrite rsplit_bang_app by done.
      rewrite trim_quotes_plain by (inversion Nq; simpl; done).
      rewrite P. f_equal. rewrite <- E. apply str_of_chars_of.
    + cbn iota. set (D := double_quotes (c :: l)).
      simpl (("'"%char :: _) ++ _). rewrite <- app_assoc. unfold D.
      assert (Hrep : replace_dq ("'"%char :: double_quotes (c :: l) ++ ["'"%char; "!"%char] ++ R)
                     = "'"%char :: (c :: l) ++ "'"%char :: "!"%char :: R).
      { cbn [double_quotes flat_map]. destruct (Ascii.eqb_spec c "'") as [->|Hc]; [done|].
        cbn [app replace_dq]. rewrite Ascii.eqb_refl. destruct (Ascii.eqb_spec c "'"); [done|].
        f_equal. f_equal. fold (double_quotes l). rewrite replace_dq_double. f_equal.
        cbn [app replace_dq]. rewrite Ascii.eqb_refl. simpl. f_equal. f_equal. by apply replace_dq_plain. }
      rewrite Hrep.
      replace ("'"%char :: (c :: l) ++ "'"%char :: "!"%char :: R)
        with (("'"%char :: (c :: l) ++ ["'"%char]) ++ "!"%char :: R) by (simpl; by rewrite <- app_assoc).
      rewrite rsplit_bang_app by done. rewrite trim_quotes_quoted, P.
      f_equal. rewrite <- E. apply str_of_chars_of.
Qed.

(** C4: the text [DefinedName::add_address] hands to [Address::address_set_address]
    for a printed address (the printed token with its doubled quotes
    undone) parses back, into a fresh address, to the address printed. *)
Theorem set_address_ptn2 (a : Address) :
  address_wf a ->
  address_set_address (str_of (replace_dq (chars_of (get_address_ptn2 a)))) default_address = a.
Proof. intros; eapply set_address_ptn2_core; eauto. Qed.

Example address_samples :
  get_address_ptn2 (address_set_address "'O'Brien'!$B$2:C3" default_address) = "'O''Brien'!$B$2:C3"%string /\
  is_address "'My, Sheet'!B2:C3" = true /\ is_address "Sheet1!A1" = true /\
  is_address "foo" = false /\ is_address "A1:B" = false /\ is_address "!A1" = false.
Proof. vm_compute. repeat split. Qed.

Lemma coordinate_remove_insert (c : Coordinate) (rc oc rr orr : nat) :
  coordinate_adjustment_remove (coordinate_adjustment_insert c rc oc rr orr) rc oc rr orr = c.
Proof. destruct c as [[] []]. unfold coordinate_adjustment_remove, coordinate_adjustment_insert; simpl.
  by rewrite !remove_insert_coordinate. Qed.

Lemma coordinate_insert_not_removed (c : Coordinate) (rc oc rr orr : nat) :
  coordinate_is_remove (coordinate_adjustment_insert c rc oc rr orr) rc oc rr orr = false.
Proof. unfold coordinate_is_remove, coordinate_adjustment_insert; simpl. by rewrite !insert_not_removed. Qed.

Lemma coordinate_insert_wf (c : Coordinate) (rc oc rr orr : nat) :
  coordinate_wf c -> coordinate_wf (coordinate_adjustment_insert c rc oc rr orr).
Proof. intros [? ?]. split; simpl; auto with umya. Qed.

(** Removing the lines that were just inserted restores every range
    (insert and remove with the same arguments are inverse). *)
Lemma range_remove_insert (r : Range) (rc oc rr orr : nat) :
  range_adjustment_remove (range_adjustment_insert r rc oc rr orr) rc oc rr orr = r.
Proof.
  destruct r as [s [e|]]; unfold range_adjustment_remove, range_adjustment_insert; simpl;
    by rewrite !coordinate_remove_insert.
Qed.

(** An insertion never leaves a range whose corners all fall in the
    inserted span, so an immediate removal check of that span keeps it. *)
Lemma range_insert_not_removed (r : Range) (rc oc rr orr : nat) :
  range_is_remove (range_adjustment_insert r rc oc rr orr) rc oc rr orr = false.
Proof. unfold range_is_remove, range_adjustment_insert. simpl. by rewrite coordinate_insert_not_removed. Qed.

(** Insertion keeps a range well formed and its corners in order. *)
Lemma range_insert_invariant (r : Range) (rc oc rr orr : nat) :
  range_wf r -> range_sorted r ->
  range_wf (range_adjustment_insert r rc oc rr orr) /\ range_sorted (range_adjustment_insert r rc oc rr orr).
Proof.
  destruct r as [s [e|]]; intros [Hs He] Hsort; unfold range_wf, range_sorted in *; simpl in *;
    repeat split; try apply coordinate_insert_wf; try done; apply insert_coordinate_mono; tauto.
Qed.

(** Removal then insertion of the same lines restores a range clear of
    them. *)
Lemma range_insert_remove (r : Range) (rc oc rr orr : nat) :
  range_clear r rc oc rr orr ->
  range_adjustment_insert (range_adjustment_remove r rc oc rr orr) rc oc rr orr = r.
Proof.
  destruct r as [st [e|]]; intros [Hs He]; unfold range_adjustment_insert, range_adjustment_remove;
    cbn [coordinate_start coordinate_end option_map] in *; by rewrite !coordinate_insert_remove.
Qed.

Lemma coordinate_insert_below (c : Coordinate) (rc oc rr orr : nat) (mc mr : Z) :
  coordinate_below c mc mr ->
  coordinate_below (coordinate_adjustment_insert c rc oc rr orr) (mc + Z.of_nat oc) (mr + Z.of_nat orr).
Proof.
  intros [Hc Hr]. unfold coordinate_below, coordinate_adjustment_insert. cbn [column row num].
  pose proof (insert_coordinate_le (num (column c)) rc oc).
  pose proof (insert_coordinate_le (num (row c)) rr orr). lia.
Qed.

(** An insertion of [oc] columns and [orr] rows raises the columns of a
    range by at most [oc] and its rows by at most [orr]. *)
Lemma range_insert_below (r : Range) (rc oc rr orr : nat) (mc mr : Z) :
  range_below r mc mr ->
  range_below (range_adjustment_insert r rc oc rr orr) (mc + Z.of_nat oc) (mr + Z.of_nat orr).
Proof.
  destruct r as [st [e|]]; intros [Hs He]; unfold range_adjustment_insert, range_below in *;
    cbn [coordinate_start coordinate_end option_map] in *; split; try done; by apply coordinate_insert_below.
Qed.

(** Spec §9: a removal that invalidates only the start corner keeps the
    range, and can leave its corners inverted: rows 4-5 removed from
    [B5:B6] give [B5:B4]. *)
Example range_remove_inverts :
  let r := mkRange (mkCoord (mkRef 2 false) (mkRef 5 false)) (Some (mkCoord (mkRef 2 false) (mkRef 6 false))) in
  range_is_remove r 0 0 4 2 = false /\
  range_adjustment_remove r 0 0 4 2
  = mkRange (mkCoord (mkRef 2 false) (mkRef 5 false)) (Some (mkCoord (mkRef 2 false) (mkRef 4 false))).
Proof. vm_compute. split; reflexivity. Qed.

Lemma sample_address_wf : address_wf sample_address.
Proof. cbv. repeat split; try lia. discriminate. Qed.

Lemma set_address_ptn2_witness :
  address_wf sample_address /\
  address_set_address (str_of (replace_dq (chars_of (get_address_ptn2 sample_address)))) default_address
  = sample_address.
Proof. split; [exact sample_address_wf | exact (set_address_ptn2 _ sample_address_wf)]. Defined.
