(* ===== verification/DefinedName.v ===== *)
(** The defined name of a workbook (src/src/structs/defined_name.rs): a
    named range owning either a list of addresses or a literal string, its
    comma splitter [split_str], its setters, its removal test and
    coordinate adjustment, and its XML read loop and writer. This is the
    component whose code is under src/; every definition of the module
    below names the lines it translates in the manifest. *)

From Stdlib Require Import String Ascii List Lia Arith ZArith NArith.
From stdpp Require Import base decidable list.
From S2P Require Import Prelude Numeral TypedValue Xml Coordinate Address.
Import ListNotations.

Module DefinedName.

(** ** State: [struct DefinedName] (lines 13-19) *)

Record DefinedName := mkDefinedName {
  name : StringValue;
  address : list Address;
  string_value : StringValue;
  local_sheet_id : UInt32Value
}.

Definition default : DefinedName := mkDefinedName unset_value [] unset_value unset_value.

(** ** Accessors (lines 21-93) *)

Definition get_name (d : DefinedName) : string := get_value (name d).

Definition set_name (v : string) (d : DefinedName) : DefinedName :=
  mkDefinedName (set_value v (name d)) (address d) (string_value d) (local_sheet_id d).

(** The literal string when there is one, else the addresses printed and
    joined with commas. *)
Definition get_address (d : DefinedName) : string :=
  if has_value (string_value d) then get_value (string_value d)
  else join "," (map get_address_ptn2 (address d)).

(** [add_address]: undo doubled quotes, parse into a fresh [Address],
    append. *)
Definition add_address (value : string) (d : DefinedName) : DefinedName :=
  let value := str_of (replace_dq (chars_of value)) in
  mkDefinedName (name d) (address d ++ [address_set_address value default_address])
                (string_value d) (local_sheet_id d).

Definition get_sheet_name_crate (d : DefinedName) : string :=
  if has_value (string_value d) then EmptyString
  else match address d with
       | a :: _ => sheet_name a
       | [] => sheet_name default_address
       end.

(** [get_address_obj] (lines 73-75) reads the address list;
    [get_address_obj_mut] (lines 77-79) hands it out for mutation: the
    caller's edit [f] is applied to the list in place. *)
Definition get_address_obj (d : DefinedName) : list Address := address d.

Definition get_address_obj_mut (f : list Address -> list Address) (d : DefinedName) : DefinedName :=
  mkDefinedName (name d) (f (address d)) (string_value d) (local_sheet_id d).

(** [set_string_value]: clear the addresses, set the literal. *)
Definition set_string_value (v : string) (d : DefinedName) : DefinedName :=
  mkDefinedName (name d) [] (set_value v (string_value d)) (local_sheet_id d).

Definition get_local_sheet_id (d : DefinedName) : N := get_value (local_sheet_id d).

Definition set_local_sheet_id (v : N) (d : DefinedName) : DefinedName :=
  mkDefinedName (name d) (address d) (string_value d) (set_value v (local_sheet_id d)).

(** ** [split_str] (lines 95-139)

    The loop state: the three flags of the Rust code ([is_pass_b] is an
    [i32] counter, kept as [Z]: it would need more than 2^31 parentheses
    to wrap), the tokens pushed so far and the token being built. *)
Record split_state := mkSplit {
  is_pass_s : bool;
  is_pass_d : bool;
  is_pass_b : Z;
  tokens : list string;
  cur : string
}.

Definition split_init : split_state := mkSplit false false 0 [] EmptyString.

(** One iteration of [for c in &char_list { match c { ... } }]. *)
Definition split_step (st : split_state) (c : ascii) : split_state :=
  let '(mkSplit s d b res str) := st in
  if Ascii.eqb c "(" then mkSplit s d (b + 1) res (push str c)
  else if Ascii.eqb c ")" then mkSplit s d (b - 1) res (push str c)
  else if Ascii.eqb c "'" then mkSplit (negb s) d b res (push str c)
  else if Ascii.eqb c dquote then
    mkSplit s (negb d) b res (if s || negb (b =? 0)%Z then push str c else str)
  else if Ascii.eqb c "," then
    if negb s && negb d && (b =? 0)%Z then mkSplit s d b (res ++ [str]) EmptyString
    else mkSplit s d b res (push str c)
  else mkSplit s d b res (push str c).

(** After the loop: [if !string.is_empty() { result.push(string) }]. *)
Definition split_finish (st : split_state) : list string :=
  if String.eqb (cur st) EmptyString then tokens st else tokens st ++ [cur st].

Definition split_str (value : string) : list string :=
  split_finish (fold_left split_step (chars_of value) split_init).

(** ** [set_address] (lines 41-51): each token is an address or, when it
    is not, the literal string. *)
Definition set_address_step (d : DefinedName) (v : string) : DefinedName :=
  if is_address v then add_address v d else set_string_value v d.

Definition set_address (value : string) (d : DefinedName) : DefinedName :=
  fold_left set_address_step (split_str value) d.

(** The address [add_address] appends for a token. *)
Definition token_address (t : string) : Address :=
  address_set_address (str_of (replace_dq (chars_of t))) default_address.

(** ** [is_remove] (lines 141-165): drop the addresses the removal
    invalidates, then report whether the owner is now empty. *)
Definition is_remove (sheet : string) (root_col offset_col root_row offset_row : nat)
  (d : DefinedName) : DefinedName * bool :=
  let kept := List.filter (fun x => negb (address_is_remove x sheet root_col offset_col root_row offset_row))
                     (address d) in
  let d' := mkDefinedName (name d) kept (string_value d) (local_sheet_id d) in
  (d', if has_value (string_value d) then false
       else match kept with [] => true | _ => false end).

(** [set_sheet_name] (lines 167-173). *)
Definition set_sheet_name (v : string) (d : DefinedName) : DefinedName :=
  mkDefinedName (name d) (map (fun a => mkAddress v (range a)) (address d))
                (string_value d) (local_sheet_id d).

(** ** [AdjustmentCoordinate] (lines 212-246): every address's range is
    adjusted, whatever its sheet. *)
Definition adjustment_insert_coordinate (root_col offset_col root_row offset_row : nat)
  (d : DefinedName) : DefinedName :=
  mkDefinedName (name d)
    (map (fun a => address_adjustment_insert a root_col offset_col root_row offset_row) (address d))
    (string_value d) (local_sheet_id d).

Definition adjustment_remove_coordinate (root_col offset_col root_row offset_row : nat)
  (d : DefinedName) : DefinedName :=
  mkDefinedName (name d)
    (map (fun a => address_adjustment_remove a root_col offset_col root_row offset_row) (address d))
    (string_value d) (local_sheet_id d).

(** ** Reading: [set_attributes] (lines 175-197)

    [set_string_from_xml!]: when the attribute is present, convert it into
    the field (a conversion error leaves the field unset). *)
Definition set_name_from_xml (attrs : list attribute) (d : DefinedName) : DefinedName :=
  match get_attribute attrs "name" with
  | Some v => mkDefinedName (fst (set_value_string v (name d))) (address d) (string_value d) (local_sheet_id d)
  | None => d
  end.

Definition set_local_sheet_id_from_xml (attrs : list attribute) (d : DefinedName) : DefinedName :=
  match get_attribute attrs "localSheetId" with
  | Some v => mkDefinedName (name d) (address d) (string_value d) (fst (set_value_string v (local_sheet_id d)))
  | None => d
  end.

(** [xml_read_loop!] with the arms of lines 186-195: a text event replaces
    [value]; the closing [definedName] tag sets the address and returns;
    end of input panics; a read error panics; anything else is skipped. *)
Fixpoint read_loop (d : DefinedName) (value : string) (r : reader)
  : result xml_error (DefinedName * reader) :=
  match r with
  | [] => Err (UnexpectedEof "definedName")
  | Fault :: _ => Err ReadFailed
  | Ev ev :: r' =>
      match ev with
      | Text raw =>
          match unescape raw with
          | Some v => read_loop d v r'
          | None => Err UnescapeFailed
          end
      | End n => if String.eqb n "definedName" then Ok (set_address value d, r') else read_loop d value r'
      | Eof => Err (UnexpectedEof "definedName")
      | _ => read_loop d value r'
      end
  end.

Definition set_attributes (d : DefinedName) (r : reader) (attrs : list attribute)
  : result xml_error (DefinedName * reader) :=
  read_loop (set_local_sheet_id_from_xml attrs (set_name_from_xml attrs d)) EmptyString r.

(** ** Writing: [write_to] (lines 199-210) *)

Definition write_attributes (d : DefinedName) : list attribute :=
  [("name"%string, get_name d)] ++
  (if has_value (local_sheet_id d) then [("localSheetId"%string, get_value_string (local_sheet_id d))] else []).

Definition write_to (d : DefinedName) (w : writer) : writer :=
  write_end_tag
    (write_text_node (write_start_tag w "definedName" (write_attributes d) false) (get_address d))
    "definedName".


(** ** Events the read loop goes past

    An event the loop reads without stopping: no read error, no end of
    input, no closing [definedName] tag, and a text that unescapes. *)
Definition loop_passive (i : read_item) : Prop :=
  match i with
  | Ev (End n) => n <> "definedName"%string
  | Ev (Text raw) => unescape raw <> None
  | Ev Eof => False
  | Fault => False
  | _ => True
  end.

(** The text the loop holds after the events [r], starting from [v]: the
    last text event wins. *)
Definition last_text (v : string) (r : reader) : string :=
  fold_left (fun acc i => match i with
                          | Ev (Text raw) => match unescape raw with Some t => t | None => acc end
                          | _ => acc
                          end) r v.

(** The range of Rust's [i32], the type the code infers for
    [is_pass_b] (its literal [0] with [+= 1] and [-= 1]). *)
Definition i32_in_range (z : Z) : bool := ((- 2 ^ 31 <=? z) && (z <? 2 ^ 31))%Z.

(** ** Theory of [split_str] *)

(** The characters [split_step] only appends. *)
Definition is_plain (c : ascii) : bool :=
  negb (Ascii.eqb c "(" || Ascii.eqb c ")" || Ascii.eqb c "'" || Ascii.eqb c dquote || Ascii.eqb c ",").

(** Parity of the double quotes and balance of the parentheses of a text. *)
Fixpoint dq_odd (l : list ascii) : bool :=
  match l with [] => false | c :: t => xorb (Ascii.eqb c dquote) (dq_odd t) end.

Fixpoint paren_balance (l : list ascii) : Z :=
  match l with
  | [] => 0%Z
  | c :: t => ((if Ascii.eqb c "(" then 1 else if Ascii.eqb c ")" then -1 else 0) + paren_balance t)%Z
  end.

(** A sheet name that the splitter crosses without changing state: an even
    number of double quotes and as many ['('] as [')']. *)
Definition split_safe (s : string) : Prop :=
  dq_odd (chars_of s) = false /\ paren_balance (chars_of s) = 0%Z.

(** A token the splitter crosses from the neutral state without splitting
    and back to the neutral state. *)
Definition token_ok (t : string) : Prop :=
  chars_of t <> [] /\
  forall res str, fold_left split_step (chars_of t) (mkSplit false false 0 res str)
                  = mkSplit false false 0 res (str_of (chars_of str ++ chars_of t)).

(** An address the printer and the splitter carry through unchanged. *)
Definition address_ok (a : Address) : Prop := address_wf a /\ split_safe (sheet_name a).

Definition sample : DefinedName :=
  mkDefinedName (mkValue (Some "Data"%string))
    [sample_address; mkAddress "" (mkRange (mkCoord (mkRef 1 false) (mkRef 1 false)) None)]
    unset_value unset_value.

(** An owner whose addresses are well formed and have their corners in
    order. *)
Definition addresses_sorted (d : DefinedName) : Prop :=
  Forall (fun a => address_wf a /\ range_sorted (range a)) (address d).

(** A sequence of insertions, as a sheet edit performs them one after the
    other, each given as [(root_col, offset_col, root_row, offset_row)],
    with the total of its column and of its row offsets. *)
Fixpoint adjustment_insert_all (ins : list (nat * nat * nat * nat)) (d : DefinedName) : DefinedName :=
  match ins with
  | [] => d
  | (rc, oc, rr, orr) :: ins' => adjustment_insert_all ins' (adjustment_insert_coordinate rc oc rr orr d)
  end.

Definition offsets_col (ins : list (nat * nat * nat * nat)) : Z :=
  Z.of_nat (list_sum (map (fun '(_, oc, _, _) => oc) ins)).

Definition offsets_row (ins : list (nat * nat * nat * nat)) : Z :=
  Z.of_nat (list_sum (map (fun '(_, _, _, orr) => orr) ins)).

Lemma push_str (s : string) (c : ascii) : push s c = str_of (chars_of s ++ [c]).
Proof. apply chars_of_inj. by rewrite chars_of_push, chars_of_str_of. Qed.

Lemma str_of_snoc (l : list ascii) (c : ascii) (t : list ascii) :
  str_of ((l ++ [c]) ++ t) = str_of (l ++ c :: t).
Proof. by rewrite <- app_assoc. Qed.

Lemma split_step_plain (s d : bool) (b : Z) (res : list string) (str : string) (c : ascii) :
  is_plain c = true -> split_step (mkSplit s d b res str) c = mkSplit s d b res (push str c).
Proof. unfold is_plain. intros H. simpl. repeat case_chr; try discriminate; done. Qed.

Lemma split_step_quote (s d : bool) (b : Z) (res : list string) (str : string) :
  split_step (mkSplit s d b res str) "'" = mkSplit (negb s) d b res (push str "'").
Proof. reflexivity. Qed.

Lemma run_plain (l : list ascii) (s d : bool) (b : Z) (res : list string) (str : string) :
  Forall (fun c => is_plain c = true) l ->
  fold_left split_step l (mkSplit s d b res str) = mkSplit s d b res (str_of (chars_of str ++ l)).
Proof.
  intros Hl. revert str. induction Hl as [|c l Hc _ IH]; intros str; cbn [fold_left].
  - by rewrite app_nil_r, str_of_chars_of.
  - rewrite split_step_plain, IH by done. by rewrite push_str, chars_of_str_of, str_of_snoc.
Qed.

(** Inside a quoted sheet name the quote flag is up, so nothing splits;
    the double quotes and parentheses of the name still move the other
    two flags. *)
Lemma run_quoted (n : list ascii) (d : bool) (b : Z) (res : list string) (str : string) :
  fold_left split_step (double_quotes n) (mkSplit true d b res str)
  = mkSplit true (xorb d (dq_odd n)) (b + paren_balance n)%Z res (str_of (chars_of str ++ double_quotes n)).
Proof.
  revert d b str. induction n as [|c n IH]; intros d b str.
  - simpl. rewrite app_nil_r, str_of_chars_of, xorb_false_r, Z.add_0_r. done.
  - cbn [double_quotes flat_map dq_odd paren_balance]. fold (double_quotes n).
    destruct (Ascii.eqb_spec c "'") as [->|Hq].
    + simpl. rewrite IH, !push_str, !chars_of_str_of. rewrite Z.add_0_l, <- !app_assoc. reflexivity.
    + cbn [app fold_left]. unfold split_step at 2.
      repeat case_chr; try congruence; simpl; rewrite IH, push_str, chars_of_str_of;
        (f_equal; first [lia | by destruct d, (dq_odd n) | by rewrite str_of_snoc | done]).
Qed.

Lemma ref_char_plain (c : ascii) : is_ref_char c = true -> is_plain c = true.
Proof. intros H. unfold is_plain. repeat case_chr; try done; by compute in H. Qed.

Lemma name_char_plain (c : ascii) : is_name_char c = true -> is_plain c = true.
Proof. intros H. unfold is_plain. repeat case_chr; try done; by compute in H. Qed.

Lemma address_token_ok (a : Address) :
  address_wf a -> split_safe (sheet_name a) -> token_ok (get_address_ptn2 a).
Proof.
  intros [Hr _] [Hdq Hpb]. unfold token_ok, get_address_ptn2. rewrite !chars_of_str_of.
  pose proof (range_chars_nonempty _ Hr) as Hne.
  assert (HR : Forall (fun c => is_plain c = true) (range_chars (range a)))
    by (eapply Forall_impl; [apply range_chars_ref|]; intros c; apply ref_char_plain).
  split; [destruct (sheet_prefix (sheet_name a)); [done|discriminate]|]. intros res str.
  unfold sheet_prefix. destruct (chars_of (sheet_name a)) as [|c l] eqn:E.
  - by rewrite run_plain.
  - destruct (forallb is_name_char (c :: l)) eqn:F.
    + cbn iota. rewrite run_plain; [done|].
      apply Forall_app_2; [apply Forall_app_2; [|repeat constructor]|done].
      eapply Forall_impl; [apply name_chars_forall, F|]. intros x; apply name_char_plain.
    + cbn iota. remember (double_quotes (c :: l)) as D eqn:HD.
      replace (("'"%char :: D ++ ["'"%char; "!"%char]) ++ range_chars (range a))
        with ("'"%char :: D ++ "'"%char :: "!"%char :: range_chars (range a))
        by (simpl; by rewrite <- app_assoc).
      cbn [fold_left]. rewrite split_step_quote, fold_left_app. subst D.
      rewrite run_quoted, Hdq, Hpb. cbn [fold_left xorb negb]. rewrite Z.add_0_r, split_step_quote.
      cbn [negb]. rewrite split_step_plain by reflexivity. rewrite run_plain by done.
      rewrite !push_str, !chars_of_str_of. f_equal. f_equal. rewrite <- !app_assoc. reflexivity.
Qed.

Lemma split_join_tokens (x : string) (xs : list string) (res : list string) :
  Forall token_ok (x :: xs) ->
  split_finish (fold_left split_step (chars_of (join "," (x :: xs))) (mkSplit false false 0 res EmptyString))
  = res ++ x :: xs.
Proof.
  revert x res. induction xs as [|y xs IH]; intros x res Hok; inversion Hok as [|? ? [Hne Hx] Hrest]; subst.
  - cbn [join]. rewrite Hx. unfold split_finish. simpl cur. rewrite str_of_chars_of.
    destruct (String.eqb_spec x EmptyString) as [->|]; [done|]. done.
  - rewrite chars_of_join_cons, fold_left_app, Hx. simpl (chars_of ",").
    cbn [app fold_left]. simpl (split_step _ ","%char). rewrite str_of_chars_of.
    rewrite IH by done. by rewrite <- app_assoc.
Qed.


Lemma split_str_eq (v : string) :
  split_str v = split_finish (fold_left split_step (chars_of v) (mkSplit false false 0 [] EmptyString)).
Proof. reflexivity. Qed.

(** The proof of [split_str_join], for use by the other lemmas. *)
Lemma split_str_join_core (l : list Address) :
  Forall address_ok l -> split_str (join "," (map get_address_ptn2 l)) = map get_address_ptn2 l.
Proof.
  intros Hl. destruct l as [|a l]; [reflexivity|]. rewrite split_str_eq. cbn [map].
  rewrite split_join_tokens; [done|]. rewrite <- (map_cons get_address_ptn2 a l).
  apply Forall_map. eapply Forall_impl; [exact Hl|]. intros x [Hw Hs]. by apply address_token_ok.
Qed.

(** C2: splitting the comma-joined printed addresses of an owner gives
    back exactly the printed addresses, in order: commas, quotes and
    parentheses inside quoted sheet names do not split. *)
Theorem split_str_join (l : list Address) :
  Forall address_ok l -> split_str (join "," (map get_address_ptn2 l)) = map get_address_ptn2 l.
Proof. intros; eapply split_str_join_core; eauto. Qed.

Lemma split_str_join_witness :
  let l := [mkAddress "My, (Sheet)" (mkRange (mkCoord (mkRef 2 false) (mkRef 2 false))
                                        (Some (mkCoord (mkRef 3 false) (mkRef 3 false))));
            mkAddress "" (mkRange (mkCoord (mkRef 1 true) (mkRef 1 true)) None)] in
  Forall address_ok l /\
  split_str (join "," (map get_address_ptn2 l)) = map get_address_ptn2 l.
Proof.
  simpl. assert (H : Forall address_ok
    [mkAddress "My, (Sheet)" (mkRange (mkCoord (mkRef 2 false) (mkRef 2 false))
                                 (Some (mkCoord (mkRef 3 false) (mkRef 3 false))));
     mkAddress "" (mkRange (mkCoord (mkRef 1 true) (mkRef 1 true)) None)]).
  { repeat constructor; cbv; try lia; discriminate. }
  split; [exact H | exact (split_str_join _ H)].
Defined.

(** ** The parenthesis counter stays an [i32] *)

(** One character moves the counter by at most one. *)
Lemma split_step_counter (st : split_state) (c : ascii) :
  (Z.abs (is_pass_b (split_step st c)) <= Z.abs (is_pass_b st) + 1)%Z.
Proof.
  destruct st as [s d b res str]. unfold split_step.
  repeat case_chr; try discriminate; cbn [is_pass_b]; repeat case_match; cbn [is_pass_b]; lia.
Qed.

Lemma fold_counter (l : list ascii) (st : split_state) :
  (Z.abs (is_pass_b (fold_left split_step l st)) <= Z.abs (is_pass_b st) + Z.of_nat (length l))%Z.
Proof.
  revert st. induction l as [|c l IH]; intros st; cbn [fold_left length]; [lia|].
  specialize (IH (split_step st c)). pose proof (split_step_counter st c). lia.
Qed.

(** C22: on any text shorter than 2^31 characters the counter
    [is_pass_b] stays in the [i32] range at every point of the loop, so
    the [+= 1] and [-= 1] of the code never overflow and the model of
    the counter as an unbounded integer is exact. *)
Theorem split_counter_i32 (v : string) (p q : list ascii) :
  chars_of v = p ++ q -> (Z.of_nat (length (chars_of v)) < 2 ^ 31)%Z ->
  i32_in_range (is_pass_b (fold_left split_step p split_init)) = true.
Proof.
  intros Hv Hlen. pose proof (fold_counter p split_init) as Hb. cbn [is_pass_b split_init] in Hb.
  rewrite Hv, length_app in Hlen. unfold i32_in_range.
  apply andb_true_intro; split; [apply Z.leb_le | apply Z.ltb_lt]; lia.
Qed.

Lemma split_counter_i32_witness :
  chars_of "((a))" = ["("%char; "("%char] ++ ["a"%char; ")"%char; ")"%char] /\
  (Z.of_nat (length (chars_of "((a))")) < 2 ^ 31)%Z /\
  i32_in_range (is_pass_b (fold_left split_step ["("%char; "("%char] split_init)) = true.
Proof.
  assert (H1 : chars_of "((a))" = ["("%char; "("%char] ++ ["a"%char; ")"%char; ")"%char]) by reflexivity.
  assert (H2 : (Z.of_nat (length (chars_of "((a))")) < 2 ^ 31)%Z) by (vm_compute; reflexivity).
  split; [exact H1|]. split; [exact H2|]. exact (split_counter_i32 _ _ _ H1 H2).
Defined.

(** ** The loop of [set_address] *)

(** Tokens that are all addresses are appended, parsed, after the
    addresses the owner already has; the literal is left alone. *)
Lemma set_address_addresses (toks : list string) (d : DefinedName) :
  Forall (fun t => is_address t = true) toks ->
  fold_left set_address_step toks d
  = mkDefinedName (name d) (address d ++ map token_address toks) (string_value d) (local_sheet_id d).
Proof.
  intros Ht. revert d. induction Ht as [|t toks Ht _ IH]; intros d; cbn [fold_left map].
  - rewrite app_nil_r. by destruct d.
  - unfold set_address_step at 2. rewrite Ht, IH. simpl. by rewrite <- app_assoc.
Qed.

(** The loop never touches the name and the [localSheetId]. *)
Lemma set_address_keeps (toks : list string) (d : DefinedName) :
  name (fold_left set_address_step toks d) = name d /\
  local_sheet_id (fold_left set_address_step toks d) = local_sheet_id d.
Proof.
  revert d. induction toks as [|t toks IH]; intros d; [done|]. cbn [fold_left].
  rewrite !(proj1 (IH _)), !(proj2 (IH _)). unfold set_address_step. by destruct (is_address t).
Qed.

Lemma token_address_ptn2 (a : Address) : address_wf a -> token_address (get_address_ptn2 a) = a.
Proof. apply set_address_ptn2_core. Qed.

Lemma set_address_tokens (l : list Address) (d : DefinedName) :
  Forall address_ok l ->
  fold_left set_address_step (map get_address_ptn2 l) d
  = mkDefinedName (name d) (address d ++ l) (string_value d) (local_sheet_id d).
Proof.
  intros Hl. rewrite set_address_addresses.
  - rewrite map_map. f_equal. f_equal. rewrite <- (map_id l) at 2. apply List.map_ext_Forall.
    eapply Forall_impl; [exact Hl|]. intros a [Hw _]. by apply token_address_ptn2.
  - apply Forall_map. eapply Forall_impl; [exact Hl|]. intros a [Hw _]. by apply is_address_ptn2.
Qed.

(** C3: reading back the address text of an owner without a literal
    ([set_address (get_address d)] on a fresh owner) rebuilds its address
    list exactly and leaves the literal unset. *)
Theorem set_get_address_roundtrip (d : DefinedName) :
  has_value (string_value d) = false -> Forall address_ok (address d) ->
  set_address (get_address d) default = mkDefinedName unset_value (address d) unset_value unset_value.
Proof.
  intros Hs Hl. unfold get_address, set_address. rewrite Hs, split_str_join_core by done.
  by rewrite set_address_tokens.
Qed.

(** C5: when every token of the text is an address, [set_address]
    appends the parsed tokens, in order, after the addresses the owner
    already has, and leaves its literal, name and [localSheetId] alone:
    the method accumulates, it does not replace. *)
Theorem set_address_all_addresses (v : string) (d : DefinedName) :
  Forall (fun t => is_address t = true) (split_str v) ->
  set_address v d
  = mkDefinedName (name d) (address d ++ map token_address (split_str v)) (string_value d) (local_sheet_id d).
Proof. intros H. unfold set_address. by apply set_address_addresses. Qed.

Lemma set_address_all_addresses_witness :
  Forall (fun t => is_address t = true) (split_str "S!B5,'O''B'!A1:C3") /\
  set_address "S!B5,'O''B'!A1:C3" default
  = mkDefinedName (name default) (address default ++ map token_address (split_str "S!B5,'O''B'!A1:C3"))
      (string_value default) (local_sheet_id default).
Proof.
  assert (H : Forall (fun t => is_address t = true) (split_str "S!B5,'O''B'!A1:C3"))
    by (vm_compute; repeat constructor).
  split; [exact H | exact (set_address_all_addresses _ default H)].
Defined.

(** C13: the last token that is not an address wins: [set_address] ends
    with that literal set and, as its addresses, exactly the tokens after
    it, parsed; the addresses before it and the owner's earlier addresses
    are cleared, whatever came before. *)
Theorem set_address_last_literal (v : string) (pre post : list string) (lit : string) (d : DefinedName) :
  split_str v = pre ++ lit :: post -> is_address lit = false ->
  Forall (fun t => is_address t = true) post ->
  set_address v d
  = mkDefinedName (name d) (map token_address post) (set_value lit unset_value) (local_sheet_id d).
Proof.
  intros Hs Hl Hp. unfold set_address. rewrite Hs, fold_left_app. cbn [fold_left].
  destruct (set_address_keeps pre d) as [Hn Hi].
  unfold set_address_step at 2. rewrite Hl, set_address_addresses by done. simpl.
  by rewrite Hn, Hi.
Qed.

Lemma set_address_last_literal_witness :
  split_str "A1,foo,B2" = ["A1"%string] ++ "foo"%string :: ["B2"%string] /\
  is_address "foo" = false /\ Forall (fun t => is_address t = true) ["B2"%string] /\
  set_address "A1,foo,B2" default
  = mkDefinedName (name default) (map token_address ["B2"%string]) (set_value "foo"%string unset_value)
      (local_sheet_id default).
Proof.
  assert (H1 : split_str "A1,foo,B2" = ["A1"%string] ++ "foo"%string :: ["B2"%string]) by reflexivity.
  assert (H2 : is_address "foo" = false) by reflexivity.
  assert (H3 : Forall (fun t => is_address t = true) ["B2"%string]) by (repeat constructor).
  split; [exact H1|]. split; [exact H2|]. split; [exact H3|].
  exact (set_address_last_literal _ _ _ _ default H1 H2 H3).
Defined.

(** The element [write_to] emits: its start tag, its text, its end tag. *)
Lemma write_to_events (d : DefinedName) (w : writer) :
  write_to d w = w ++ [Start "definedName" (write_attributes d); Text (escape (get_address d)); End "definedName"].
Proof. unfold write_to, write_end_tag, write_text_node, write_start_tag. by rewrite <- !app_assoc. Qed.

Lemma read_name_attr (d : DefinedName) :
  set_name_from_xml (write_attributes d) default
  = mkDefinedName (set_value (get_name d) unset_value) [] unset_value unset_value.
Proof. reflexivity. Qed.

Lemma read_local_sheet_id_attr (d : DefinedName) (e : DefinedName) :
  value_wf (local_sheet_id d) -> local_sheet_id e = unset_value ->
  set_local_sheet_id_from_xml (write_attributes d) e
  = mkDefinedName (name e) (address e) (string_value e) (local_sheet_id d).
Proof.
  intros Hw He. unfold set_local_sheet_id_from_xml, write_attributes.
  destruct (local_sheet_id d) as [[v|]] eqn:E.
  - assert (A : get_attribute ([("name"%string, get_name d)] ++
                  (if has_value (mkValue (Some v)) then [("localSheetId"%string, get_value_string (mkValue (Some v)))]
                   else [])) "localSheetId" = Some (get_value_string (mkValue (Some v)))) by reflexivity.
    rewrite A, (value_string_roundtrip (T:=N)) by (rewrite ?E in Hw; done). done.
  - simpl. destruct e as [? ? ? le]. simpl in He. by subst.
Qed.

(** C1: write then read. The events [write_to] emits for an owner without
    a literal, read by [set_attributes] from a fresh owner, give back its
    addresses and [localSheetId] and consume exactly the element; the name
    comes back set to the name written. *)
Theorem write_read_roundtrip (d : DefinedName) (rest : reader) :
  has_value (string_value d) = false -> value_wf (local_sheet_id d) -> Forall address_ok (address d) ->
  set_attributes default (map Ev (tl (write_to d [])) ++ rest) (write_attributes d)
  = Ok (mkDefinedName (set_value (get_name d) (name d)) (address d) (string_value d) (local_sheet_id d), rest).
Proof.
  intros Hs Hw Hl. rewrite write_to_events. unfold set_attributes. rewrite read_name_attr.
  rewrite read_local_sheet_id_attr by done. simpl. rewrite unescape_escape. simpl.
  unfold set_address, get_address. rewrite Hs, split_str_join_core by done. rewrite set_address_tokens by done.
  destruct (string_value d) as [[v|]]; [discriminate|]. done.
Qed.

Lemma write_read_roundtrip_witness :
  let d := mkDefinedName (mkValue (Some "Print_Area"%string))
             [mkAddress "O'Brien" (mkRange (mkCoord (mkRef 2 true) (mkRef 2 true))
                                     (Some (mkCoord (mkRef 5 false) (mkRef 10 false))))]
             unset_value (mkValue (Some 0%N)) in
  has_value (string_value d) = false /\ value_wf (local_sheet_id d) /\ Forall address_ok (address d) /\
  set_attributes default (map Ev (tl (write_to d [])) ++ []) (write_attributes d)
  = Ok (mkDefinedName (set_value (get_name d) (name d)) (address d) (string_value d) (local_sheet_id d), []).
Proof.
  simpl. assert (H1 : Forall address_ok
    [mkAddress "O'Brien" (mkRange (mkCoord (mkRef 2 true) (mkRef 2 true))
                            (Some (mkCoord (mkRef 5 false) (mkRef 10 false))))]).
  { repeat constructor; cbv; try lia; discriminate. }
  assert (H0 : value_wf (T:=N) (mkValue (Some 0%N))) by reflexivity.
  split; [reflexivity|]. split; [exact H0|]. split; [exact H1|].
  exact (write_read_roundtrip (mkDefinedName (mkValue (Some "Print_Area"%string))
             [mkAddress "O'Brien" (mkRange (mkCoord (mkRef 2 true) (mkRef 2 true))
                                     (Some (mkCoord (mkRef 5 false) (mkRef 10 false))))]
             unset_value (mkValue (Some 0%N))) [] eq_refl H0 H1).
Defined.


Lemma sample_ok : Forall address_ok (address sample).
Proof. repeat constructor; cbv; try lia; discriminate. Qed.

(** ** Removal and adjustment *)

(** C6: [is_remove] keeps exactly the addresses the removal does not
    invalidate, in order, and reports the owner empty exactly when it has
    no literal and no address survives. *)
Theorem is_remove_spec (sheet : string) (rc oc rr orr : nat) (d : DefinedName) :
  is_remove sheet rc oc rr orr d
  = (mkDefinedName (name d)
       (List.filter (fun x => negb (address_is_remove x sheet rc oc rr orr)) (address d))
       (string_value d) (local_sheet_id d),
     negb (has_value (string_value d)) && forallb (fun x => address_is_remove x sheet rc oc rr orr) (address d)).
Proof.
  unfold is_remove. f_equal. destruct (has_value (string_value d)); [done|]. simpl.
  induction (address d) as [|a l IH]; [done|]. simpl.
  destruct (address_is_remove a sheet rc oc rr orr); simpl; [exact IH | done].
Qed.

(** C7: an address bound to another sheet survives any removal. *)
Theorem is_remove_other_sheet (sheet : string) (rc oc rr orr : nat) (d : DefinedName) (a : Address) :
  In a (address d) -> sheet_name a <> sheet -> In a (address (fst (is_remove sheet rc oc rr orr d))).
Proof.
  intros Hin Hne. simpl. apply filter_In. split; [done|].
  unfold address_is_remove. destruct (String.eqb_spec (sheet_name a) sheet); [done|]. done.
Qed.

Lemma is_remove_other_sheet_witness :
  let a := mkAddress "Other" (mkRange (mkCoord (mkRef 3 false) (mkRef 4 false)) None) in
  let d := mkDefinedName unset_value [a] unset_value unset_value in
  In a (address d) /\ sheet_name a <> "S"%string /\ In a (address (fst (is_remove "S" 0 0 4 1 d))).
Proof.
  simpl. assert (H1 : In (mkAddress "Other" (mkRange (mkCoord (mkRef 3 false) (mkRef 4 false)) None))
                        [mkAddress "Other" (mkRange (mkCoord (mkRef 3 false) (mkRef 4 false)) None)]) by (left; reflexivity).
  assert (H2 : "Other"%string <> "S"%string) by discriminate.
  split; [exact H1|]. split; [exact H2|].
  exact (is_remove_other_sheet "S" 0 0 4 1 (mkDefinedName unset_value
           [mkAddress "Other" (mkRange (mkCoord (mkRef 3 false) (mkRef 4 false)) None)] unset_value unset_value) _ H1 H2).
Defined.

(** Spec §8: [C4] on sheet [S], row 4 removed: the address is dropped and
    the owner reported empty; with a literal the owner is never empty. *)
Example is_remove_cascade :
  snd (is_remove "S" 0 0 4 1
         (mkDefinedName unset_value [mkAddress "S" (mkRange (mkCoord (mkRef 3 false) (mkRef 4 false)) None)]
            unset_value unset_value)) = true /\
  snd (is_remove "S" 0 0 4 1 (set_string_value "#REF!" default)) = false.
Proof. vm_compute. split; reflexivity. Qed.

(** C8: removing the lines just inserted restores every address of the
    owner. *)
Theorem adjustment_remove_insert (rc oc rr orr : nat) (d : DefinedName) :
  adjustment_remove_coordinate rc oc rr orr (adjustment_insert_coordinate rc oc rr orr d) = d.
Proof.
  destruct d as [n l sv id]. unfold adjustment_remove_coordinate, adjustment_insert_coordinate. simpl.
  f_equal. rewrite map_map. rewrite <- (map_id l) at 2. apply map_ext. intros [sh r].
  unfold address_adjustment_remove, address_adjustment_insert. simpl. by rewrite range_remove_insert.
Qed.

(** C14: [adjustment_insert_coordinate] keeps every address of the owner
    well formed (coordinates at least 1, sheet name unchanged) and its
    corners in order. *)
Theorem adjustment_insert_sorted (rc oc rr orr : nat) (d : DefinedName) :
  addresses_sorted d -> addresses_sorted (adjustment_insert_coordinate rc oc rr orr d).
Proof.
  unfold addresses_sorted. intros H. simpl. apply Forall_map. eapply Forall_impl; [exact H|].
  intros a [[Hr Hs] Hso]. destruct (range_insert_invariant _ rc oc rr orr Hr Hso). done.
Qed.

Lemma adjustment_insert_sorted_witness :
  addresses_sorted sample /\ addresses_sorted (adjustment_insert_coordinate 2 1 3 2 sample).
Proof.
  assert (H : addresses_sorted sample) by (repeat constructor; cbv; try lia; discriminate).
  split; [exact H | exact (adjustment_insert_sorted 2 1 3 2 sample H)].
Defined.

(** C15: right after an insertion, a removal check of the inserted lines
    keeps every address of the owner, on any sheet, and reports it empty
    only when it had neither literal nor address. *)
Theorem is_remove_after_insert (sheet : string) (rc oc rr orr : nat) (d : DefinedName) :
  is_remove sheet rc oc rr orr (adjustment_insert_coordinate rc oc rr orr d)
  = (adjustment_insert_coordinate rc oc rr orr d,
     negb (has_value (string_value d)) && match address d with [] => true | _ => false end).
Proof.
  unfold is_remove, adjustment_insert_coordinate. cbn [address name string_value local_sheet_id].
  assert (Hf : forall l, List.filter (fun x => negb (address_is_remove x sheet rc oc rr orr))
                           (map (fun a => address_adjustment_insert a rc oc rr orr) l)
                         = map (fun a => address_adjustment_insert a rc oc rr orr) l).
  { induction l as [|a l IH]; [done|]. cbn [map List.filter].
    unfold address_is_remove at 1. cbn [range address_adjustment_insert].
    by rewrite range_insert_not_removed, andb_false_r, IH. }
  rewrite Hf. f_equal. destruct (has_value (string_value d)); [done|]. by destruct (address d).
Qed.

(** C26: the converse of C8 for the addresses it can hold: removing
    lines and inserting them back restores every address none of whose
    corners lies in the removed lines (an address inside them is moved,
    see [adjustment_remove_insert_inside]). *)
Theorem adjustment_insert_remove (rc oc rr orr : nat) (d : DefinedName) :
  Forall (fun a => range_clear (range a) rc oc rr orr) (address d) ->
  adjustment_insert_coordinate rc oc rr orr (adjustment_remove_coordinate rc oc rr orr d) = d.
Proof.
  destruct d as [n l sv id]. unfold adjustment_remove_coordinate, adjustment_insert_coordinate.
  cbn [address name string_value local_sheet_id]. intros Hl. f_equal. rewrite map_map.
  rewrite <- (map_id l) at 2. apply List.map_ext_Forall. eapply Forall_impl; [exact Hl|].
  intros [sh r] Hr. unfold address_adjustment_remove, address_adjustment_insert. cbn [range sheet_name].
  by rewrite range_insert_remove.
Qed.

Lemma adjustment_insert_remove_witness :
  Forall (fun a => range_clear (range a) 0 0 200 2) (address sample) /\
  adjustment_insert_coordinate 0 0 200 2 (adjustment_remove_coordinate 0 0 200 2 sample) = sample.
Proof.
  assert (H : Forall (fun a => range_clear (range a) 0 0 200 2) (address sample))
    by (repeat constructor; vm_compute; reflexivity).
  split; [exact H | exact (adjustment_insert_remove 0 0 200 2 sample H)].
Defined.

(** Row 5 removed, then inserted back: [B5], inside the removed row, is
    not restored but moved to [B6]. *)
Example adjustment_remove_insert_inside :
  get_address (adjustment_insert_coordinate 0 0 5 1 (adjustment_remove_coordinate 0 0 5 1 (set_address "S!B5" default)))
  = "S!B6"%string.
Proof. vm_compute. reflexivity. Qed.

(** One insertion raises the columns of every address by at most its
    column offset and the rows by at most its row offset. *)
Lemma adjustment_insert_below (rc oc rr orr : nat) (mc mr : Z) (d : DefinedName) :
  Forall (fun a => range_below (range a) mc mr) (address d) ->
  Forall (fun a => range_below (range a) (mc + Z.of_nat oc) (mr + Z.of_nat orr))
         (address (adjustment_insert_coordinate rc oc rr orr d)).
Proof.
  intros Hl. cbn [adjustment_insert_coordinate address]. apply Forall_map.
  eapply Forall_impl; [exact Hl|]. intros a Ha. by apply range_insert_below.
Qed.

(** C27: over any sequence of insertions, the columns of the owner's
    addresses grow by at most the total of the column offsets and the
    rows by at most the total of the row offsets. With the sheet's
    limits (16384 columns, 1048576 rows) as the starting bounds, every
    [u32] addition [num + offset] of the adjustment is exact as long as
    the bound plus the offsets inserted so far stays within 2^32, which
    is why the model's unbounded numbers are the code's. *)
Theorem adjustment_insert_bound (ins : list (nat * nat * nat * nat)) (mc mr : Z) (d : DefinedName) :
  Forall (fun a => range_below (range a) mc mr) (address d) ->
  Forall (fun a => range_below (range a) (mc + offsets_col ins) (mr + offsets_row ins))
         (address (adjustment_insert_all ins d)).
Proof.
  revert mc mr d. induction ins as [|[[[rc oc] rr] orr] ins IH]; intros mc mr d Hl; cbn [adjustment_insert_all].
  - unfold offsets_col, offsets_row. cbn. by rewrite !Z.add_0_r.
  - replace (mc + offsets_col _)%Z with (mc + Z.of_nat oc + offsets_col ins)%Z
      by (unfold offsets_col; simpl; lia).
    replace (mr + offsets_row _)%Z with (mr + Z.of_nat orr + offsets_row ins)%Z
      by (unfold offsets_row; simpl; lia).
    by apply IH, adjustment_insert_below.
Qed.

Lemma adjustment_insert_bound_witness :
  Forall (fun a => range_below (range a) 101 101) (address sample) /\
  Forall (fun a => range_below (range a) (101 + offsets_col [(1, 2, 1, 3); (0, 0, 5, 1)])
                                         (101 + offsets_row [(1, 2, 1, 3); (0, 0, 5, 1)]))
         (address (adjustment_insert_all [(1, 2, 1, 3); (0, 0, 5, 1)] sample)).
Proof.
  assert (H : Forall (fun a => range_below (range a) 101 101) (address sample))
    by (vm_compute; repeat constructor).
  split; [exact H | exact (adjustment_insert_bound [(1, 2, 1, 3); (0, 0, 5, 1)] 101 101 sample H)].
Defined.

(** Spec §8: [B5] becomes [B7] when two rows are inserted at row 3; [B2]
    stays. The adjustment does not look at the sheet: an address on sheet
    [Other] moves too (spec §4.2 restricts it to the edited sheet). *)
Example adjustment_insert_samples :
  get_address (adjustment_insert_coordinate 0 0 3 2 (set_address "S!B5,S!B2,Other!B5" default))
  = "S!B7,S!B2,Other!B7"%string.
Proof. vm_compute. reflexivity. Qed.

(** C18: [set_sheet_name v] moves every address of the owner to sheet
    [v] and keeps every range; an owner without literal and with at least
    one address then reports [v] as its sheet ([get_sheet_name_crate]),
    and an owner with a literal reports no sheet whatever the name. *)
Theorem set_sheet_name_get (v : string) (d : DefinedName) :
  Forall (fun a => sheet_name a = v) (address (set_sheet_name v d)) /\
  map range (address (set_sheet_name v d)) = map range (address d) /\
  get_sheet_name_crate (set_sheet_name v d)
  = if has_value (string_value d) then EmptyString
    else match address d with [] => sheet_name default_address | _ => v end.
Proof.
  split; [|split].
  - cbn [set_sheet_name address]. apply Forall_map, List.Forall_forall. reflexivity.
  - cbn [set_sheet_name address]. rewrite map_map. reflexivity.
  - unfold get_sheet_name_crate. cbn [set_sheet_name address string_value].
    destruct (has_value (string_value d)); [done|]. by destruct (address d).
Qed.

(** ** What [set_address] does with literal text *)

(** A string constant loses its double quotes, an array constant keeps
    only its last element, and a literal followed by an address leaves
    both a literal and an address in the owner (the literal wins on
    output). *)
Example set_address_literals :
  get_address (set_address (str_of [dquote; "h"; "i"; dquote]%char) default) = "hi"%string /\
  get_address (set_address "{1,2,3}" default) = "3}"%string /\
  (has_value (string_value (set_address "foo,A1" default)) = true /\
   length (address (set_address "foo,A1" default)) = 1) /\
  split_str "'a)b'!A1,B2" = ["'a)b'!A1,B2"%string].
Proof. vm_compute. repeat split. Qed.

(** Empty tokens: a leading comma or two commas in a row give an empty
    token, which is not an address and so becomes the literal; the
    empty literal then hides the addresses read after it. A trailing
    comma gives no token. *)
Example set_address_empty_tokens :
  get_address (set_address ",A1" default) = EmptyString /\
  length (address (set_address ",A1" default)) = 1 /\
  get_address (set_address "A1,,B2" default) = EmptyString /\
  get_address (set_address "A1," default) = "A1"%string.
Proof. vm_compute. repeat split. Qed.

(** C9: a fragment that ends before the closing [definedName] tag is a
    fatal [UnexpectedEof] error, never a partial owner. *)
Theorem read_loop_truncated (d : DefinedName) (v : string) (r : reader) :
  Forall (fun i => loop_passive i \/ i = Ev Eof) r ->
  read_loop d v r = Err (UnexpectedEof "definedName").
Proof.
  intros H. revert v. induction H as [|i r Hi _ IH]; intros v; [done|].
  destruct i as [[n a|n a|n|raw| |]|]; unfold loop_passive in Hi; simpl; try done;
    try (destruct Hi as [[]|Hi]; discriminate).
  - destruct (String.eqb_spec n "definedName") as [->|]; [|apply IH].
    destruct Hi as [Hi|Hi]; [by contradiction Hi|discriminate].
  - destruct Hi as [Hi|Hi]; [|discriminate]. destruct (unescape raw); [apply IH|done].
Qed.

Lemma read_loop_truncated_witness :
  Forall (fun i => loop_passive i \/ i = Ev Eof) [Ev (Text "A1"); Ev (End "other")] /\
  read_loop default EmptyString [Ev (Text "A1"); Ev (End "other")] = Err (UnexpectedEof "definedName").
Proof.
  assert (H : Forall (fun i => loop_passive i \/ i = Ev Eof) [Ev (Text "A1"); Ev (End "other")])
    by (repeat (apply List.Forall_cons; [left; vm_compute; discriminate|]); apply List.Forall_nil).
  split; [exact H | exact (read_loop_truncated default EmptyString _ H)].
Defined.

(** The loop goes past passive events up to the closing tag. *)
Lemma read_loop_passive (d : DefinedName) (v : string) (pre post : reader) :
  Forall loop_passive pre ->
  read_loop d v (pre ++ Ev (End "definedName") :: post) = Ok (set_address (last_text v pre) d, post).
Proof.
  intros H. revert v. induction H as [|i r Hi _ IH]; intros v; [done|].
  destruct i as [[n a|n a|n|raw| |]|]; cbn [app read_loop]; try apply IH; try done.
  - cbn in Hi. destruct (String.eqb_spec n "definedName"); [done|]. apply IH.
  - cbn in Hi. destruct (unescape raw) eqn:E; [|done]. unfold last_text. cbn [fold_left]. rewrite E. apply IH.
Qed.

(** C20: the read loop always reaches the closing tag when the fragment
    has one: after any run of events it goes past, it returns the owner
    with [set_address] applied to the last text read, and hands back
    exactly the events after the closing tag. *)
Theorem read_loop_completes (d : DefinedName) (v : string) (pre post : reader) :
  Forall loop_passive pre ->
  read_loop d v (pre ++ Ev (End "definedName") :: post) = Ok (set_address (last_text v pre) d, post).
Proof. apply read_loop_passive. Qed.

Lemma read_loop_completes_witness :
  Forall loop_passive [Ev (Text "A1"); Ev Other; Ev (Text "S!B2")] /\
  read_loop default EmptyString ([Ev (Text "A1"); Ev Other; Ev (Text "S!B2")] ++ Ev (End "definedName") :: [])
  = Ok (set_address (last_text EmptyString [Ev (Text "A1"); Ev Other; Ev (Text "S!B2")]) default, []).
Proof.
  assert (H : Forall loop_passive [Ev (Text "A1"); Ev Other; Ev (Text "S!B2")])
    by (repeat constructor; vm_compute; discriminate).
  split; [exact H | exact (read_loop_completes default EmptyString _ [] H)].
Defined.

(** C25: the fatal conditions of the read loop: after events it goes
    past, a read error is [ReadFailed] and a text that does not unescape
    is [UnescapeFailed] (the [unwrap] of line 187), whatever follows; no
    owner is returned. *)
Theorem read_loop_errors (d : DefinedName) (v raw : string) (pre post : reader) :
  Forall loop_passive pre ->
  read_loop d v (pre ++ Fault :: post) = Err ReadFailed /\
  (unescape raw = None -> read_loop d v (pre ++ Ev (Text raw) :: post) = Err UnescapeFailed).
Proof.
  intros H. revert v. induction H as [|i r Hi _ IH]; intros v.
  - split; [done|]. intros E. cbn. by rewrite E.
  - destruct i as [[n a|n a|n|t| |]|]; cbn [app read_loop]; cbn in Hi; try done; try apply IH.
    + destruct (String.eqb_spec n "definedName"); [done|]. apply IH.
    + destruct (unescape t); [apply IH|done].
Qed.

Lemma read_loop_errors_witness :
  Forall loop_passive [Ev Other; Ev (Text "A1")] /\
  read_loop default EmptyString ([Ev Other; Ev (Text "A1")] ++ Fault :: []) = Err ReadFailed /\
  (unescape "a&b" = None ->
   read_loop default EmptyString ([Ev Other; Ev (Text "A1")] ++ Ev (Text "a&b") :: []) = Err UnescapeFailed).
Proof.
  assert (H : Forall loop_passive [Ev Other; Ev (Text "A1")]) by (repeat constructor; vm_compute; discriminate).
  split; [exact H | exact (read_loop_errors default EmptyString "a&b" _ [] H)].
Defined.

(** Two text events: the second replaces the first (spec §4.4 says text
    accumulates). *)
Example read_loop_text_replaced :
  read_loop default EmptyString [Ev (Text "A1"); Ev (Text "B2"); Ev (End "definedName")]
  = Ok (set_address "B2" default, []).
Proof. reflexivity. Qed.

(** The [name] attribute is written even when unset. *)
Example write_unset_name :
  write_to default [] = [Start "definedName" [("name"%string, EmptyString)]; Text EmptyString; End "definedName"].
Proof. reflexivity. Qed.



Lemma set_get_address_roundtrip_witness :
  has_value (string_value sample) = false /\ Forall address_ok (address sample) /\
  set_address (get_address sample) default = mkDefinedName unset_value (address sample) unset_value unset_value.
Proof.
  split; [reflexivity|]. split; [exact sample_ok|].
  exact (set_get_address_roundtrip sample eq_refl sample_ok).
Defined.

End DefinedName.
