(* ===== verification/Smooth.v ===== *)
(** The chart element [c:smooth] (src/src/structs/drawing/charts/smooth.rs):
    one boolean attribute [val], read from a start tag without consuming
    further events and written as a self-closing tag. *)

From Stdlib Require Import String Ascii List.
From stdpp Require Import base decidable list.
From S2P Require Import Prelude TypedValue Xml.
Import ListNotations.

Module Smooth.

(** [struct Smooth { val: BooleanValue }] (lines 10-13). *)
Record Smooth := mkSmooth { val : BooleanValue }.

Definition default : Smooth := mkSmooth unset_value.

(** [get_val] (lines 15-17), [set_val] (lines 19-22). *)
Definition get_val (s : Smooth) : bool := get_value (val s).

Definition set_val (v : bool) (s : Smooth) : Smooth := mkSmooth (set_value v (val s)).

(** [set_attributes] (lines 24-30): [get_attribute(e, b"val").unwrap()]
    panics when the attribute is missing; the reader is not advanced. *)
Definition set_attributes (s : Smooth) (attrs : list attribute) : result xml_error Smooth :=
  match get_attribute attrs "val" with
  | Some v => Ok (mkSmooth (fst (set_value_string v (val s))))
  | None => Err (MissingAttribute "val")
  end.

(** [write_to] (lines 32-37): [val] is always written. *)
Definition write_to (s : Smooth) (w : writer) : writer :=
  write_start_tag w "c:smooth" [("val"%string, get_value_string (val s))] true.

(** C10: write then read. The tag [write_to] emits reads back, from a fresh
    element, as the value [get_val] returned, now explicitly set. *)
Theorem smooth_write_read_roundtrip (s : Smooth) :
  match write_to s [] with
  | [Empty n attrs] => n = "c:smooth"%string /\ set_attributes default attrs = Ok (set_val (get_val s) default)
  | _ => False
  end.
Proof.
  split; [done|]. unfold set_attributes.
  replace (get_attribute _ "val") with (Some (get_value_string (val s))) by reflexivity.
  rewrite (value_string_roundtrip (T:=bool)); [done|]. unfold value_wf. by destruct (value (val s)).
Qed.

(** C11: a [c:smooth] tag without [val] is an error (the Rust code panics on
    the [unwrap]), never a silently defaulted element. *)
Theorem missing_val_error (s : Smooth) (attrs : list attribute) :
  get_attribute attrs "val" = None -> set_attributes s attrs = Err (MissingAttribute "val").
Proof. intros H. unfold set_attributes. by rewrite H. Qed.

Lemma missing_val_error_witness :
  get_attribute [("other"%string, "1"%string)] "val" = None /\
  set_attributes default [("other"%string, "1"%string)] = Err (MissingAttribute "val").
Proof. split; [reflexivity | apply missing_val_error; reflexivity]. Defined.

(** C17: the value read from [val]: [get_val] is [true] after reading
    exactly when the attribute is ["1"] or ["true"]; any other text
    (["0"], ["false"] or an unrecognised one, which leaves the value unset)
    reads as [false]. *)
Theorem read_val_true (s s' : Smooth) (attrs : list attribute) (v : string) :
  get_attribute attrs "val" = Some v -> set_attributes s attrs = Ok s' ->
  (get_val s' = true <-> v = "1"%string \/ v = "true"%string).
Proof.
  intros Ha. unfold set_attributes. rewrite Ha. intros [= <-].
  unfold get_val, set_value_string. cbn [val value_of_string bool_kind].
  unfold bool_of_string.
  destruct (String.eqb_spec v "1"); [simpl; tauto|].
  destruct (String.eqb_spec v "true"); [simpl; tauto|].
  destruct (String.eqb_spec v "0"); [simpl; intuition discriminate|].
  destruct (String.eqb_spec v "false"); simpl; intuition discriminate.
Qed.

Lemma read_val_true_witness :
  get_attribute [("val"%string, "true"%string)] "val" = Some "true"%string /\
  set_attributes default [("val"%string, "true"%string)] = Ok (set_val true default) /\
  (get_val (set_val true default) = true <-> "true"%string = "1"%string \/ "true"%string = "true"%string).
Proof.
  assert (H1 : get_attribute [("val"%string, "true"%string)] "val" = Some "true"%string) by reflexivity.
  assert (H2 : set_attributes default [("val"%string, "true"%string)] = Ok (set_val true default))
    by reflexivity.
  split; [exact H1|]. split; [exact H2|]. exact (read_val_true _ _ _ _ H1 H2).
Defined.

(** An unset [val] is written as ["0"] (spec §4.5: an unset value is
    omitted); an unrecognised value reads as unset, i.e. [false]. *)
Example smooth_samples :
  write_to default [] = [Empty "c:smooth" [("val"%string, "0"%string)]] /\
  set_attributes default [("val"%string, "yes"%string)] = Ok default /\
  set_attributes default [("val"%string, "true"%string)] = Ok (set_val true default).
Proof. vm_compute. repeat split. Qed.

End Smooth.
