(* ===== verification/Drawing.v ===== *)
(** The reader of a drawing part (src/src/reader/xlsx/drawing.rs): the
    part is looked up in the zip archive (a finite map from part names to
    the events of each part; a missing part is the error [by_name(..)?]
    returns), then a loop over the part's events hands every [xdr:wsDr]
    start tag to the worksheet drawing's own [set_attributes] and stops
    at the end of the input. The worksheet drawing reader is a component
    of its own (not under src/); the loop is proved against the
    interface it promises: it reads from the events after the tag and
    never hands back more events than it was given. The loop is
    specified event by event by the relation [runs]; [read] refines it
    and terminates, and [read_part] composes it with the lookup. *)

From Stdlib Require Import String Ascii List Lia Arith.
From stdpp Require Import base decidable list gmap strings.
From S2P Require Import Prelude Xml.
Import ListNotations.

(** What the worksheet drawing reader provides to the part reader. *)
Class WorksheetDrawingReader (W : Type) := {
  wsdr_set_attributes : W -> reader -> list attribute -> result xml_error (W * reader)
}.

Class WorksheetDrawingReaderLaws (W : Type) `{WorksheetDrawingReader W} := {
  wsdr_consumes : forall w r attrs w' r',
    wsdr_set_attributes w r attrs = Ok (w', r') -> length r' <= length r
}.

(** ** A sample worksheet drawing reader

    A reader that counts the [xdr:wsDr] elements and skips each one up to
    its end tag; it discharges the interface, so the loop's theorems apply
    to it. *)
Fixpoint skip_to_end (name : string) (r : reader) : reader :=
  match r with
  | [] => []
  | Ev (End n) :: r' => if String.eqb n name then r' else skip_to_end name r'
  | _ :: r' => skip_to_end name r'
  end.

#[export] Instance counting_reader : WorksheetDrawingReader nat := {|
  wsdr_set_attributes n r _ := Ok (S n, skip_to_end "xdr:wsDr" r)
|}.

Definition sample_archive : gmap string reader :=
  <["xl/drawings/drawing1.xml" := [Ev (Start "xdr:wsDr" []); Ev (End "xdr:wsDr")]]> ∅.

(** The errors [drawing::read] returns with [?] ([XlsxError]), and the
    panics of its loop, as values. *)
Inductive xlsx_error : Type :=
  | ZipFileNotFound (name : string)
  | ReadPanic (e : xml_error).

Module Drawing.
Section Read.
Context {W : Type} `{WorksheetDrawingReader W}.

(** [driver::normalize_path] (not under src/): any function on paths. *)
Context (normalize_path : string -> string).

(** The loop of lines 24-40, with [fuel] bounding the iterations ([None]
    when it runs out): [Eof] breaks out with [Ok], a read error panics, a
    [xdr:wsDr] start tag is handed to the worksheet drawing, anything
    else is skipped. *)
Fixpoint read_fuel (fuel : nat) (ws : W) (r : reader) : option (result xml_error W) :=
  match fuel with
  | 0 => None
  | S f =>
      match read_event r with
      | (Ev (Start n attrs), r') =>
          if String.eqb n "xdr:wsDr" then
            match wsdr_set_attributes ws r' attrs with
            | Ok (ws', r'') => read_fuel f ws' r''
            | Err e => Some (Err e)
            end
          else read_fuel f ws r'
      | (Ev Eof, _) => Some (Ok ws)
      | (Fault, _) => Some (Err ReadFailed)
      | (Ev _, r') => read_fuel f ws r'
      end
  end.

(** [read]: one iteration per event and one for the final [Eof]. *)
Definition read (ws : W) (r : reader) : option (result xml_error W) :=
  read_fuel (S (length r)) ws r.

(** ** The loop's specification

    What the loop means, event by event, as a big-step relation: the end
    of the input or an [Eof] finishes with the worksheet as it is, a read
    error is an error, an [xdr:wsDr] start tag runs the worksheet drawing
    reader (its error is the loop's error) and the loop goes on after what
    that reader consumed, any other event is skipped. *)
Definition skipped (e : event) : Prop :=
  match e with
  | Start n _ => n <> "xdr:wsDr"%string
  | Eof => False
  | _ => True
  end.

Inductive runs : W -> reader -> result xml_error W -> Prop :=
  | runs_end ws : runs ws [] (Ok ws)
  | runs_eof ws r : runs ws (Ev Eof :: r) (Ok ws)
  | runs_fault ws r : runs ws (Fault :: r) (Err ReadFailed)
  | runs_wsdr ws attrs r ws' r' res :
      wsdr_set_attributes ws r attrs = Ok (ws', r') -> runs ws' r' res ->
      runs ws (Ev (Start "xdr:wsDr" attrs) :: r) res
  | runs_wsdr_err ws attrs r e :
      wsdr_set_attributes ws r attrs = Err e ->
      runs ws (Ev (Start "xdr:wsDr" attrs) :: r) (Err e)
  | runs_skip ws e r res : skipped e -> runs ws r res -> runs ws (Ev e :: r) res.

(** Every result the fuelled loop gives is one the specification allows. *)
Lemma read_fuel_runs (fuel : nat) (ws : W) (r : reader) (res : result xml_error W) :
  read_fuel fuel ws r = Some res -> runs ws r res.
Proof.
  revert ws r. induction fuel as [|f IH]; intros ws r; [done|].
  destruct r as [|[[n a|n a|n|t| |]|] r]; cbn [read_fuel read_event];
    try (intros [= <-]; constructor); try (intros; apply runs_skip; [done|auto]).
  destruct (String.eqb_spec n "xdr:wsDr") as [->|Hn]; [|intros; apply runs_skip; auto].
  destruct (wsdr_set_attributes ws r a) as [[ws' r']|e] eqn:E.
  - intros; eapply runs_wsdr; eauto.
  - intros [= <-]. by apply runs_wsdr_err.
Qed.

(** ** The archive access (lines 14-22)

    The zip archive as a finite map from part names to the parts, each
    part as the events [Reader::from_reader] yields on its bytes (the
    byte-level reading and [read_to_end]'s I/O errors are not modelled).
    [to_str().unwrap_or("")] is the identity on these ASCII names. *)
Abbreviation archive := (gmap string reader).

(** The name [arv.by_name] is asked for (line 15). *)
Definition part_name (target : string) : string := normalize_path ("xl/drawings/" ++ target).

(** [drawing::read]: look the part up ([by_name(..)?] fails with the
    part's name when it is missing), then run the event loop on it. *)
Definition read_part (arv : archive) (target : string) (ws : W) : option (result xlsx_error W) :=
  match arv !! part_name target with
  | None => Some (Err (ZipFileNotFound (part_name target)))
  | Some r =>
      match read ws r with
      | Some (Ok ws') => Some (Ok ws')
      | Some (Err e) => Some (Err (ReadPanic e))
      | None => None
      end
  end.

Context `{!WorksheetDrawingReaderLaws W}.

(** With more iterations than events the loop has finished, and further
    fuel changes nothing. *)
Lemma read_fuel_stable (fuel1 fuel2 : nat) (ws : W) (r : reader) :
  length r < fuel1 -> length r < fuel2 -> read_fuel fuel1 ws r = read_fuel fuel2 ws r.
Proof.
  revert fuel2 ws r. induction fuel1 as [|f1 IH]; intros [|f2] ws r H1 H2; try lia.
  destruct r as [|[[n a|n a|n|t| |]|] r]; cbn [read_fuel read_event length] in *; try done;
    try (apply IH; lia).
  destruct (String.eqb n "xdr:wsDr"); [|apply IH; lia].
  destruct (wsdr_set_attributes ws r a) as [[ws' r']|e] eqn:E; [|done].
  apply wsdr_consumes in E. apply IH; lia.
Qed.

(** Every result the specification allows is the one the loop computes
    with more iterations than events. *)
Lemma runs_read_fuel (ws : W) (r : reader) (res : result xml_error W) :
  runs ws r res -> forall fuel, length r < fuel -> read_fuel fuel ws r = Some res.
Proof.
  induction 1 as [ws|ws r|ws r|ws attrs r ws' r' res E _ IH|ws attrs r e E|ws e r res He _ IH];
    intros [|f] Hf; cbn [length] in Hf; try lia; cbn [read_fuel read_event]; try done.
  - rewrite String.eqb_refl, E. apply IH. apply wsdr_consumes in E. lia.
  - by rewrite String.eqb_refl, E.
  - destruct e as [n a|n a|n|t| |]; try (apply IH; lia); [|done].
    cbn in He. destruct (String.eqb_spec n "xdr:wsDr"); [done|]. apply IH; lia.
Qed.

(** C16: [read] implements the specification of the loop: it returns a
    result exactly when the specification relates the events to it. *)
Theorem read_refines (ws : W) (r : reader) (res : result xml_error W) :
  read ws r = Some res <-> runs ws r res.
Proof.
  split; [apply read_fuel_runs|]. intros Hr. unfold read. apply (runs_read_fuel _ _ _ Hr). lia.
Qed.

(** C12: the drawing-part loop terminates: on every input its result is a
    value ([Ok] or a read error), and any larger iteration bound gives
    the same result. *)
Theorem read_terminates (ws : W) (r : reader) :
  read ws r <> None /\ forall fuel, length r < fuel -> read_fuel fuel ws r = read ws r.
Proof.
  split.
  - unfold read. generalize (S (length r)) (Nat.lt_succ_diag_r (length r)). intros fuel Hf.
    revert ws r Hf. induction fuel as [|f IH]; intros ws r Hf; [lia|].
    destruct r as [|[[n a|n a|n|t| |]|] r]; cbn [read_fuel read_event length] in *; try done;
      try (apply IH; lia).
    destruct (String.eqb n "xdr:wsDr"); [|apply IH; lia].
    destruct (wsdr_set_attributes ws r a) as [[ws' r']|e] eqn:E; [|done].
    apply wsdr_consumes in E. apply IH; lia.
  - intros fuel Hf. apply read_fuel_stable; lia.
Qed.

(** C23: a drawing part missing from the archive is an error naming the
    part, returned before any event is read. *)
Theorem read_part_missing (arv : archive) (target : string) (ws : W) :
  arv !! part_name target = None ->
  read_part arv target ws = Some (Err (ZipFileNotFound (part_name target))).
Proof. intros E. unfold read_part. by rewrite E. Qed.

(** C24: reading a drawing part composes the archive lookup with the
    loop's specification: it succeeds with [ws'] exactly when the part
    is in the archive and the loop's specification relates its events to
    [ws']. *)
Theorem read_part_runs (arv : archive) (target : string) (ws ws' : W) :
  read_part arv target ws = Some (Ok ws') <->
  exists r, arv !! part_name target = Some r /\ runs ws r (Ok ws').
Proof.
  unfold read_part. destruct (arv !! part_name target) as [r|]; [|split; [done|by intros (? & ? & ?)]].
  split.
  - destruct (read ws r) as [[w|e]|] eqn:E; intros Hr; simplify_eq. eexists; split; [done|].
    by eapply read_fuel_runs.
  - intros (r' & [= <-] & Hrun). unfold read. by rewrite (runs_read_fuel _ _ _ Hrun) by lia.
Qed.

End Read.
End Drawing.

Lemma skip_to_end_length (name : string) (r : reader) : length (skip_to_end name r) <= length r.
Proof. induction r as [|[[]|] r IH]; simpl; try lia. case_match; lia. Qed.

#[export] Instance counting_reader_laws : WorksheetDrawingReaderLaws nat.
Proof. split. intros w r a w' r' E. simpl in E. injection E as <- <-. apply skip_to_end_length. Qed.

Lemma read_terminates_witness :
  let r := [Ev (Start "xdr:wsDr" []); Ev Other; Ev (End "xdr:wsDr"); Ev (Start "xdr:wsDr" []);
            Ev (End "xdr:wsDr")] in
  Drawing.read 0 r = Some (Ok 2) /\ Drawing.read 0 r <> None.
Proof.
  split; [reflexivity|]. exact (proj1 (Drawing.read_terminates 0 _)).
Defined.

Lemma read_refines_witness :
  let r := [Ev Other; Ev (Start "xdr:wsDr" []); Ev (End "xdr:wsDr"); Ev Eof; Fault] in
  Drawing.read 0 r = Some (Ok 1) /\ Drawing.runs 0 r (Ok 1).
Proof.
  split; [reflexivity|]. apply (proj1 (Drawing.read_refines 0 _ (Ok 1))). reflexivity.
Defined.

Lemma read_part_missing_witness :
  (∅ : gmap string reader) !! Drawing.part_name (fun p => p) "drawing1.xml" = None /\
  Drawing.read_part (fun p => p) ∅ "drawing1.xml" 0
  = Some (Err (ZipFileNotFound (Drawing.part_name (fun p => p) "drawing1.xml"))).
Proof.
  assert (H : (∅ : gmap string reader) !! Drawing.part_name (fun p => p) "drawing1.xml" = None)
    by apply lookup_empty.
  split; [exact H | exact (Drawing.read_part_missing _ ∅ _ 0 H)].
Defined.

Lemma read_part_runs_witness :
  Drawing.read_part (fun p => p) sample_archive "drawing1.xml" 0 = Some (Ok 1) /\
  exists r, sample_archive !! Drawing.part_name (fun p => p) "drawing1.xml" = Some r /\ Drawing.runs 0 r (Ok 1).
Proof.
  assert (H : Drawing.read_part (fun p => p) sample_archive "drawing1.xml" 0 = Some (Ok 1))
    by (vm_compute; reflexivity).
  split; [exact H | exact (proj1 (Drawing.read_part_runs _ _ _ 0 1) H)].
Defined.
