(* ===== verification/SplitSpec.v ===== *)
(** A reference definition of the comma splitter of [DefinedName::split_str]
    (src/src/structs/defined_name.rs, lines 95-139), and the proof that
    the loop of the code computes it.

    The code runs one pass over the characters with three flags and a
    buffer it empties with [std::mem::take] at each separating comma. The
    reference says what that pass means: a comma is a separator exactly
    when no single quote is open, no double quote is open and the
    parentheses are balanced; a token is the text up to the next
    separator, less the double quotes met outside single quotes and
    parentheses; after a separator the next token starts from the neutral
    state, so the reference cuts one token at a time and recurses on the
    rest ([split_ref], by well-founded recursion on the length with
    Equations). *)

From Stdlib Require Import String Ascii List Lia Arith ZArith.
From stdpp Require Import base decidable list.
From Equations Require Import Equations.
From S2P Require Import Prelude Xml Address DefinedName.
Import ListNotations.

Module SplitSpec.
Import DefinedName.

(** How a character that is not a separator moves the flags, and whether
    it is kept in the token. *)
Definition flag_step (c : ascii) (s d : bool) (b : Z) : bool * bool * Z * bool :=
  if Ascii.eqb c "(" then (s, d, (b + 1)%Z, true)
  else if Ascii.eqb c ")" then (s, d, (b - 1)%Z, true)
  else if Ascii.eqb c "'" then (negb s, d, b, true)
  else if Ascii.eqb c dquote then (s, negb d, b, s || negb (b =? 0)%Z)
  else (s, d, b, true).

Definition is_separator (c : ascii) (s d : bool) (b : Z) : bool :=
  Ascii.eqb c "," && negb s && negb d && (b =? 0)%Z.

(** The kept characters up to the first separator, and what follows the
    separator ([None] when the text ends first). *)
Fixpoint scan (s d : bool) (b : Z) (l : list ascii) : list ascii * option (list ascii) :=
  match l with
  | [] => ([], None)
  | c :: t =>
      if is_separator c s d b then ([], Some t)
      else
        let '(s', d', b', keep) := flag_step c s d b in
        let '(tok, rest) := scan s' d' b' t in
        (if keep then c :: tok else tok, rest)
  end.

Definition inspect {A} (a : A) : {b | a = b} := exist _ a eq_refl.

Lemma scan_rest_length (l : list ascii) (s d : bool) (b : Z) (tok r : list ascii) :
  scan s d b l = (tok, Some r) -> length r < length l.
Proof.
  revert s d b tok. induction l as [|c t IH]; intros s d b tok; cbn [scan]; [done|].
  destruct (is_separator c s d b); [intros [= _ <-]; cbn; lia|].
  destruct (flag_step c s d b) as [[[s' d'] b'] k].
  destruct (scan s' d' b' t) as [tok' [r'|]] eqn:E; [|done]. intros [= _ <-].
  apply IH in E. cbn. lia.
Qed.

(** The reference splitter: cut the first token, go on after the
    separator; a last token that is empty is not a token. *)
Equations? split_ref (l : list ascii) : list string by wf (length l) lt :=
  split_ref l with inspect (scan false false 0 l) := {
    | exist _ (tok, None) _ => if decide (tok = []) then [] else [str_of tok]
    | exist _ (tok, Some r) E => str_of tok :: split_ref r }.
Proof. eapply scan_rest_length; eauto. Qed.

Lemma split_ref_eq (l : list ascii) :
  split_ref l = match scan false false 0 l with
                | (tok, None) => if decide (tok = []) then [] else [str_of tok]
                | (tok, Some r) => str_of tok :: split_ref r
                end.
Proof. funelim (split_ref l); match goal with H : scan _ _ _ _ = _ |- _ => rewrite H end; reflexivity. Qed.

(** One iteration of the loop, in the terms of the reference. *)
Lemma split_step_flag (s d : bool) (b : Z) (res : list string) (cur : string) (c : ascii) :
  split_step (mkSplit s d b res cur) c
  = if is_separator c s d b then mkSplit s d b (res ++ [cur]) EmptyString
    else let '(s', d', b', keep) := flag_step c s d b in
         mkSplit s' d' b' res (if keep then push cur c else cur).
Proof.
  unfold split_step, is_separator, flag_step.
  repeat case_chr; try discriminate; cbn [andb negb]; try reflexivity;
    destruct s, d, (b =? 0)%Z; reflexivity.
Qed.

(** Up to the end of the text, the loop only builds the current token. *)
Lemma fold_scan_end (l : list ascii) (s d : bool) (b : Z) (res : list string) (cur : string)
  (tok : list ascii) :
  scan s d b l = (tok, None) ->
  tokens (fold_left split_step l (mkSplit s d b res cur)) = res /\
  DefinedName.cur (fold_left split_step l (mkSplit s d b res cur)) = str_of (chars_of cur ++ tok).
Proof.
  revert s d b cur tok. induction l as [|c t IH]; intros s d b cur tok; cbn [scan fold_left].
  - intros [= <-]. by rewrite app_nil_r, str_of_chars_of.
  - rewrite split_step_flag. destruct (is_separator c s d b); [done|].
    destruct (flag_step c s d b) as [[[s' d'] b'] k].
    destruct (scan s' d' b' t) as [tok' [r'|]] eqn:E; [done|]. intros [= <-].
    destruct (IH _ _ _ (if k then push cur c else cur) _ E) as [-> ->]. split; [done|].
    destruct k; [|done]. by rewrite push_str, chars_of_str_of, str_of_snoc.
Qed.

(** At a separator the loop pushes the token and starts the next one
    from the neutral state. *)
Lemma fold_scan_sep (l : list ascii) (s d : bool) (b : Z) (res : list string) (cur : string)
  (tok r : list ascii) :
  scan s d b l = (tok, Some r) ->
  fold_left split_step l (mkSplit s d b res cur)
  = fold_left split_step r (mkSplit false false 0 (res ++ [str_of (chars_of cur ++ tok)]) EmptyString).
Proof.
  revert s d b cur tok. induction l as [|c t IH]; intros s d b cur tok; cbn [scan fold_left]; [done|].
  rewrite split_step_flag. destruct (is_separator c s d b) eqn:Hsep.
  - intros [= <- <-]. unfold is_separator in Hsep.
    destruct s, d, (Z.eqb_spec b 0); cbn in Hsep; try (rewrite andb_false_r in Hsep); try discriminate.
    subst. by rewrite app_nil_r, str_of_chars_of.
  - destruct (flag_step c s d b) as [[[s' d'] b'] k].
    destruct (scan s' d' b' t) as [tok' [r'|]] eqn:E; [|done]. intros [= <- <-].
    rewrite (IH _ _ _ _ _ E). destruct k; [|done]. by rewrite push_str, chars_of_str_of, str_of_snoc.
Qed.

Lemma split_finish_ref (l : list ascii) (res : list string) :
  split_finish (fold_left split_step l (mkSplit false false 0 res EmptyString)) = res ++ split_ref l.
Proof.
  revert res. induction l as [l IH] using (induction_ltof1 _ (@length ascii)); intros res.
  unfold ltof in IH. rewrite split_ref_eq.
  destruct (scan false false 0 l) as [tok [r|]] eqn:E.
  - rewrite (fold_scan_sep _ _ _ _ _ _ _ _ E), (IH r) by (eapply scan_rest_length; eauto).
    by rewrite <- app_assoc.
  - destruct (fold_scan_end _ _ _ _ res EmptyString _ E) as [Ht Hc].
    unfold split_finish. rewrite Ht, Hc. cbn [chars_of list_ascii_of_string app].
    destruct (decide (tok = [])) as [->|Hne].
    + by rewrite app_nil_r.
    + destruct (String.eqb_spec (str_of tok) EmptyString) as [Heq|]; [|done].
      exfalso. apply Hne. by rewrite <- (chars_of_str_of tok), Heq.
Qed.

(** C19: [split_str] computes the reference splitter: the one-pass loop
    with its flags and [std::mem::take] cuts the text exactly at the
    commas found outside quotes and parentheses, keeps every other
    character but the double quotes met outside single quotes and
    parentheses, and drops only an empty last token. *)
Theorem split_str_ref (v : string) : split_str v = split_ref (chars_of v).
Proof. rewrite split_str_eq. apply split_finish_ref. Qed.

(** The reference computes the spec's example (spec §8, split
    correctness). *)
Example split_ref_sample :
  split_ref (chars_of "A1,'My, Sheet'!B2:C3") = ["A1"%string; "'My, Sheet'!B2:C3"%string].
Proof. rewrite split_ref_eq. cbn. repeat (rewrite split_ref_eq; cbn). reflexivity. Qed.

End SplitSpec.
