(* ===== verification/Binder.v ===== *)
(** The generic Element Binder and Element Writer of the spec (§4.4,
    §4.5), as an abstract specification of what an element reader and
    writer promise, and the elements of src/ set against it.

    The repository has no generic binder: each element has its own read
    loop (the [xml_read_loop!] expansion in [DefinedName::set_attributes])
    or attribute setter ([Smooth::set_attributes]), and its own writer.
    The spec describes the protocol those loops follow as one binder
    driven by a schema: the attributes it knows (some required), whether
    it accumulates text, and the schemas of its children. This file
    states that protocol: [bind] (the read path, with fuel, and the
    skipping of unknown subtrees by depth), [write] (the write path), and
    the code's [definedName] writer set against it: it is the protocol's
    writer when the name is set, and whatever the owner its output is
    bound by the protocol's reader to exactly what was written. Examples
    record where the code's readers and writers part from the protocol. *)

From Stdlib Require Import String Ascii List Lia Arith NArith.
From stdpp Require Import base decidable list.
From S2P Require Import Prelude TypedValue Xml Address DefinedName Smooth.
Import ListNotations.

Module Binder.

(** ** Schemas and bound objects *)

(** What the binder knows of an element: its tag, the attributes it binds
    in their declared order, those that are required, whether it keeps
    its text, and its children's schemas. *)
Inductive schema : Type :=
  | mkSchema (tag : string) (attrs required : list string) (text : bool) (children : list schema).

Definition sch_tag (s : schema) : string := let '(mkSchema t _ _ _ _) := s in t.
Definition sch_attrs (s : schema) : list string := let '(mkSchema _ a _ _ _) := s in a.
Definition sch_required (s : schema) : list string := let '(mkSchema _ _ r _ _) := s in r.
Definition sch_text (s : schema) : bool := let '(mkSchema _ _ _ x _) := s in x.
Definition sch_children (s : schema) : list schema := let '(mkSchema _ _ _ _ c) := s in c.

(** A bound element: its bound attributes, its text and its children
    (with their tags), in the order read. *)
Inductive node : Type :=
  | mkNode (attrs : list attribute) (text : string) (children : list (string * node)).

Definition node_attrs (n : node) : list attribute := let '(mkNode a _ _) := n in a.
Definition node_text (n : node) : string := let '(mkNode _ t _) := n in t.
Definition node_children (n : node) : list (string * node) := let '(mkNode _ _ c) := n in c.

(** The taxonomy of spec §7, fatal errors only: an attribute that does not
    convert is not an error of the binder (the field stays unset). *)
Inductive bind_error : Type :=
  | IoFault
  | MalformedText
  | UnexpectedEndOfInput (tag : string)
  | MismatchedEndTag (tag : string)
  | MissingRequiredAttribute (key : string).

(** ** The read path *)

(** A schema with neither text nor children binds from its start tag
    alone (§4.4, step 2). *)
Definition self_closing (s : schema) : bool :=
  negb (sch_text s) && match sch_children s with [] => true | _ => false end.

(** Step 1: the first required attribute that is absent, if any, fails
    the element; otherwise the attributes the schema declares are bound
    and the others are ignored. *)
Definition bind_attrs (s : schema) (attrs : list attribute) : result bind_error (list attribute) :=
  match List.find (fun k => match get_attribute attrs k with Some _ => false | None => true end)
                  (sch_required s) with
  | Some k => Err (MissingRequiredAttribute k)
  | None => Ok (List.filter (fun '(k, _) => bool_decide (k ∈ sch_attrs s)) attrs)
  end.

Definition find_child (s : schema) (n : string) : option schema :=
  List.find (fun c => String.eqb (sch_tag c) n) (sch_children s).

(** Skip the rest of an unknown subtree whose start tag has been read,
    counting start and end tags whatever their names (§4.4, step 3). *)
Fixpoint skip_subtree (depth : nat) (r : reader) : result bind_error reader :=
  match r with
  | [] => Err (UnexpectedEndOfInput EmptyString)
  | Fault :: _ => Err IoFault
  | Ev (Start _ _) :: r' => skip_subtree (S depth) r'
  | Ev (End _) :: r' => match depth with 0 | 1 => Ok r' | S d => skip_subtree d r' end
  | Ev Eof :: _ => Err (UnexpectedEndOfInput EmptyString)
  | Ev _ :: r' => skip_subtree depth r'
  end.

(** Binding one element from its start tag, given the loop that binds
    its content. *)
Definition bind_elem (loop : schema -> node -> reader -> option (result bind_error (node * reader)))
  (s : schema) (attrs : list attribute) (r : reader) : option (result bind_error (node * reader)) :=
  match bind_attrs s attrs with
  | Err e => Some (Err e)
  | Ok a => if self_closing s then Some (Ok (mkNode a EmptyString [], r)) else loop s (mkNode a EmptyString []) r
  end.

Definition add_text (s : schema) (n : node) (t : string) : node :=
  if sch_text s then mkNode (node_attrs n) (node_text n ++ t) (node_children n) else n.

Definition add_child (n : node) (tag : string) (c : node) : node :=
  mkNode (node_attrs n) (node_text n) (node_children n ++ [(tag, c)]).

(** Step 3: the content loop, with [fuel] bounding the events read
    ([None] when it runs out). *)
Fixpoint bind_loop (fuel : nat) (s : schema) (n : node) (r : reader)
  : option (result bind_error (node * reader)) :=
  match fuel with
  | 0 => None
  | S f =>
      match r with
      | [] => Some (Err (UnexpectedEndOfInput (sch_tag s)))
      | Fault :: _ => Some (Err IoFault)
      | Ev ev :: r' =>
          match ev with
          | Text raw =>
              match unescape raw with
              | Some t => bind_loop f s (add_text s n t) r'
              | None => Some (Err MalformedText)
              end
          | Start tag attrs =>
              match find_child s tag with
              | Some c =>
                  match bind_elem (bind_loop f) c attrs r' with
                  | Some (Ok (child, r'')) => bind_loop f s (add_child n tag child) r''
                  | res => res
                  end
              | None =>
                  match skip_subtree 1 r' with
                  | Ok r'' => bind_loop f s n r''
                  | Err e => Some (Err e)
                  end
              end
          | Empty tag attrs =>
              match find_child s tag with
              | Some c =>
                  match bind_attrs c attrs with
                  | Ok a => bind_loop f s (add_child n tag (mkNode a EmptyString [])) r'
                  | Err e => Some (Err e)
                  end
              | None => bind_loop f s n r'
              end
          | End tag => if String.eqb tag (sch_tag s) then Some (Ok (n, r')) else Some (Err (MismatchedEndTag tag))
          | Eof => Some (Err (UnexpectedEndOfInput (sch_tag s)))
          | Other => bind_loop f s n r'
          end
      end
  end.

(** [bind]: the element whose start tag carried [attrs], read from the
    events after it; one iteration per event and one more. *)
Definition bind (s : schema) (attrs : list attribute) (r : reader) : option (result bind_error (node * reader)) :=
  bind_elem (bind_loop (S (length r))) s attrs r.

(** ** The write path *)

(** The attributes in the schema's order, only those that are set. *)
Definition write_attrs (s : schema) (n : node) : list attribute :=
  flat_map (fun k => match get_attribute (node_attrs n) k with Some v => [(k, v)] | None => [] end)
           (sch_attrs s).

(** [write]: start tag, text, the children in schema order, end tag; a
    self-closing tag for a schema with neither text nor children. *)
Fixpoint write (s : schema) (n : node) : list event :=
  let '(mkSchema tag attrs req txt cs) := s in
  if negb txt && match cs with [] => true | _ => false end
  then [Empty tag (write_attrs s n)]
  else
    Start tag (write_attrs s n) ::
    (if txt then [Text (escape (node_text n))] else []) ++
    (fix go (cs : list schema) : list event :=
       match cs with
       | [] => []
       | c :: cs' =>
           flat_map (fun '(t, child) => if String.eqb t (sch_tag c) then write c child else [])
                    (node_children n) ++ go cs'
       end) cs ++
    [End tag].

(** ** The elements of src/ as schemas *)

(** [c:smooth]: one required attribute [val], no text, no children. *)
Definition smooth_schema : schema := mkSchema "c:smooth" ["val"%string] ["val"%string] false [].

(** The element the spec's writer emits for a [Smooth]: [val] when it is
    set. *)
Definition node_of_smooth (s : Smooth.Smooth) : node :=
  mkNode (if has_value (Smooth.val s) then [("val"%string, get_value_string (Smooth.val s))] else [])
         EmptyString [].

(** [definedName]: attributes [name] and [localSheetId], none required,
    a text accumulator, no children. *)
Definition defined_name_schema : schema :=
  mkSchema "definedName" ["name"%string; "localSheetId"%string] [] true [].

Definition node_of_defined_name (d : DefinedName.DefinedName) : node :=
  mkNode ((if has_value (DefinedName.name d) then [("name"%string, DefinedName.get_name d)] else []) ++
          (if has_value (DefinedName.local_sheet_id d)
           then [("localSheetId"%string, get_value_string (DefinedName.local_sheet_id d))] else []))
         (DefinedName.get_address d) [].

(** Events inside a [definedName] element that both readers go past:
    comments and the like, and texts that unescape. *)
Definition plain_item (i : read_item) : Prop :=
  match i with
  | Ev Other => True
  | Ev (Text raw) => unescape raw <> None
  | _ => False
  end.

(** The texts of a run of events, unescaped, in order. *)
Fixpoint texts (r : reader) : list string :=
  match r with
  | [] => []
  | Ev (Text raw) :: r' => match unescape raw with Some t => t :: texts r' | None => texts r' end
  | _ :: r' => texts r'
  end.

(** A parent with one known child, for the spec's forward-compatibility
    example. *)
Definition parent_schema : schema :=
  mkSchema "p" [] [] false [mkSchema "c" ["v"%string] [] false []].

(** ** Theory of the read path *)

Lemma skip_subtree_length (depth : nat) (r r' : reader) :
  skip_subtree depth r = Ok r' -> length r' < length r.
Proof.
  revert depth. induction r as [|[[]|] r IH]; intros depth; cbn [skip_subtree]; try done;
    try (intros H; apply IH in H; cbn; lia).
  destruct depth as [|[|depth]]; [intros [= <-]; cbn; lia..|]. intros H. apply IH in H. cbn. lia.
Qed.

(** With more iterations than events, the content loop returns, and when
    it succeeds it has consumed at least the end tag. *)
Lemma bind_loop_total (fuel : nat) (s : schema) (n : node) (r : reader) :
  length r < fuel ->
  exists res, bind_loop fuel s n r = Some res /\
              forall n' r', res = Ok (n', r') -> length r' < length r.
Proof.
  revert s n r. induction fuel as [|f IH]; intros s n r Hf; [lia|].
  destruct r as [|[[tag attrs|tag attrs|tag|raw| |]|] r]; cbn [bind_loop length] in *;
    try (eexists; split; [reflexivity|done]).
  - destruct (find_child s tag) as [c|].
    + unfold bind_elem. destruct (bind_attrs c attrs) as [a|e]; [|eexists; split; [reflexivity|done]].
      destruct (self_closing c).
      * destruct (IH s (add_child n tag (mkNode a EmptyString [])) r) as [res [-> Hres]]; [lia|].
        eexists; split; [reflexivity|]. intros ? ? ?%Hres. lia.
      * destruct (IH c (mkNode a EmptyString []) r) as [res1 [-> Hres1]]; [lia|].
        destruct res1 as [[child r1]|e]; [|eexists; split; [reflexivity|done]].
        specialize (Hres1 _ _ eq_refl).
        destruct (IH s (add_child n tag child) r1) as [res [-> Hres]]; [lia|].
        eexists; split; [reflexivity|]. intros ? ? ?%Hres. lia.
    + destruct (skip_subtree 1 r) as [r1|e] eqn:E; [|eexists; split; [reflexivity|done]].
      apply skip_subtree_length in E.
      destruct (IH s n r1) as [res [-> Hres]]; [lia|].
      eexists; split; [reflexivity|]. intros ? ? ?%Hres. lia.
  - destruct (find_child s tag) as [c|].
    + destruct (bind_attrs c attrs) as [a|e]; [|eexists; split; [reflexivity|done]].
      destruct (IH s (add_child n tag (mkNode a EmptyString [])) r) as [res [-> Hres]]; [lia|].
      eexists; split; [reflexivity|]. intros ? ? ?%Hres. lia.
    + destruct (IH s n r) as [res [-> Hres]]; [lia|].
      eexists; split; [reflexivity|]. intros ? ? ?%Hres. lia.
  - destruct (String.eqb tag (sch_tag s)); eexists; split; [reflexivity| |reflexivity|done].
    intros ? ? [= _ <-]. lia.
  - destruct (unescape raw) as [t|]; [|eexists; split; [reflexivity|done]].
    destruct (IH s (add_text s n t) r) as [res [-> Hres]]; [lia|].
    eexists; split; [reflexivity|]. intros ? ? ?%Hres. lia.
  - destruct (IH s n r) as [res [-> Hres]]; [lia|].
    eexists; split; [reflexivity|]. intros ? ? ?%Hres. lia.
Qed.

(** The binder always returns: a bound element or a fatal error. *)
Lemma bind_total (s : schema) (attrs : list attribute) (r : reader) : bind s attrs r <> None.
Proof.
  unfold bind, bind_elem. destruct (bind_attrs s attrs); [|done]. destruct (self_closing s); [done|].
  destruct (bind_loop_total (S (length r)) s (mkNode a EmptyString []) r) as [res [-> _]]; [lia|done].
Qed.

(** ** The elements of src/ against the protocol *)

(** The spec's loop on the [definedName] schema over plain events:
    texts accumulate, the closing tag ends the element. *)
Lemma bind_loop_plain (pre rest : reader) (fuel : nat) (n : node) :
  Forall plain_item pre -> length (pre ++ Ev (End "definedName") :: rest) < fuel ->
  bind_loop fuel defined_name_schema n (pre ++ Ev (End "definedName") :: rest)
  = Some (Ok (mkNode (node_attrs n) (fold_left append (texts pre) (node_text n)) (node_children n), rest)).
Proof.
  intros H. revert fuel n. induction H as [|i pre Hi _ IH]; intros [|f] n Hf; cbn [length app] in Hf; try lia.
  - cbn. by destruct n.
  - destruct i as [[| | |raw| |]|]; cbn in Hi; try done.
    + cbn [app bind_loop]. destruct (unescape raw) as [t|] eqn:E; [|done].
      rewrite IH by (cbn [length] in *; lia). cbn [texts]. rewrite E. reflexivity.
    + cbn [app bind_loop]. rewrite IH by (cbn [length] in *; lia). reflexivity.
Qed.

(** C21: [DefinedName::write_to] is the spec's writer on the
    [definedName] schema when the name is set: start tag with [name] and,
    when set, [localSheetId], the escaped address text, end tag. (When
    the name is unset the code still writes it; see
    [defined_name_write_unset].) *)
Theorem defined_name_write_refines (d : DefinedName.DefinedName) :
  has_value (DefinedName.name d) = true ->
  DefinedName.write_to d [] = write defined_name_schema (node_of_defined_name d).
Proof.
  intros H. rewrite DefinedName.write_to_events. unfold node_of_defined_name. rewrite H.
  unfold DefinedName.write_attributes. destruct (has_value (DefinedName.local_sheet_id d)); reflexivity.
Qed.

Lemma defined_name_write_refines_witness :
  has_value (DefinedName.name DefinedName.sample) = true /\
  DefinedName.write_to DefinedName.sample [] = write defined_name_schema (node_of_defined_name DefinedName.sample).
Proof.
  assert (H : has_value (DefinedName.name DefinedName.sample) = true) by reflexivity.
  split; [exact H | exact (defined_name_write_refines _ H)].
Defined.

(** C28: whatever the owner, the events [DefinedName::write_to] emits
    are accepted by the spec's binder on the [definedName] schema, which
    binds exactly the attributes written and the address text, and stops
    right after the element: the code's output is readable by any
    reader that follows the protocol. *)
Theorem defined_name_output_binds (d : DefinedName.DefinedName) (rest : reader) :
  bind defined_name_schema (DefinedName.write_attributes d) (map Ev (tl (DefinedName.write_to d [])) ++ rest)
  = Some (Ok (mkNode (DefinedName.write_attributes d) (DefinedName.get_address d) [], rest)).
Proof.
  rewrite DefinedName.write_to_events. cbn [app tl map]. unfold bind, bind_elem.
  assert (Ha : bind_attrs defined_name_schema (DefinedName.write_attributes d) = Ok (DefinedName.write_attributes d)).
  { unfold DefinedName.write_attributes. destruct (has_value (DefinedName.local_sheet_id d)); reflexivity. }
  rewrite Ha. change (self_closing defined_name_schema) with false. cbv iota.
  assert (Hp : Forall plain_item [Ev (Text (escape (DefinedName.get_address d)))]).
  { constructor; [cbn; by rewrite unescape_escape | constructor]. }
  pose proof (fun f => bind_loop_plain _ rest f (mkNode (DefinedName.write_attributes d) EmptyString []) Hp) as E.
  cbn [app length] in E. rewrite E by (cbn [length]; lia).
  cbn [node_attrs node_text node_children texts]. rewrite unescape_escape. reflexivity.
Qed.

(** Where the code departs from the protocol. An unset [val] or [name]
    is written (spec §4.5 omits it). *)
Example smooth_write_unset :
  Smooth.write_to Smooth.default [] = [Empty "c:smooth" [("val"%string, "0"%string)]] /\
  write smooth_schema (node_of_smooth Smooth.default) = [Empty "c:smooth" []].
Proof. split; reflexivity. Qed.

Example defined_name_write_unset :
  DefinedName.write_to DefinedName.default []
  <> write defined_name_schema (node_of_defined_name DefinedName.default).
Proof. vm_compute. discriminate. Qed.

(** Two texts: the code keeps the last, the protocol accumulates. *)
Example defined_name_two_texts :
  DefinedName.set_attributes DefinedName.default [Ev (Text "A1"); Ev (Text ",B2"); Ev (End "definedName")] []
  = Ok (DefinedName.set_address ",B2" DefinedName.default, []) /\
  bind defined_name_schema [] [Ev (Text "A1"); Ev (Text ",B2"); Ev (End "definedName")]
  = Some (Ok (mkNode [] "A1,B2" [], [])).
Proof. split; reflexivity. Qed.

(** An unknown child holding an element named [definedName]: the
    protocol skips the child's whole subtree by depth; the code stops at
    the nested closing tag and hands back the rest of the child as if it
    followed the element. *)
Example defined_name_unknown_child :
  let r := [Ev (Start "x" []); Ev (Start "definedName" []); Ev (End "definedName"); Ev (End "x");
            Ev (Text "A1"); Ev (End "definedName")] in
  DefinedName.set_attributes DefinedName.default r []
  = Ok (DefinedName.set_address EmptyString DefinedName.default,
        [Ev (End "x"); Ev (Text "A1"); Ev (End "definedName")]) /\
  bind defined_name_schema [] r = Some (Ok (mkNode [] "A1" [], [])).
Proof. split; reflexivity. Qed.

(** A closing tag of another element: the code goes past it, the
    protocol reports a structural error (spec §7). *)
Example defined_name_stray_end :
  DefinedName.set_attributes DefinedName.default [Ev (End "x"); Ev (End "definedName")] []
  = Ok (DefinedName.set_address EmptyString DefinedName.default, []) /\
  bind defined_name_schema [] [Ev (End "x"); Ev (End "definedName")] = Some (Err (MismatchedEndTag "x")).
Proof. split; reflexivity. Qed.

(** The spec's forward-compatibility case (spec §8) on [parent_schema]:
    one recognized child, one unknown sibling subtree, the stream left
    just after the element. *)
Example bind_forward_compatible :
  bind parent_schema []
    [Ev (Empty "c" [("v"%string, "1"%string); ("w"%string, "2"%string)]);
     Ev (Start "u" []); Ev (Start "u2" []); Ev (End "u2"); Ev (End "u"); Ev (End "p"); Ev Other]
  = Some (Ok (mkNode [] EmptyString [("c"%string, mkNode [("v"%string, "1"%string)] EmptyString [])], [Ev Other])).
Proof. reflexivity. Qed.

End Binder.
